(** * youtube-mp3.js: a shallow embedding and its verified properties

    The program is a four stage pipeline (fetch, transcode, tag, report)
    written as Node.js event handlers over a handful of global variables.
    The embedding keeps that shape: the globals are one record, every
    handler is a function on that record, the clock readings and the
    answers of the outside world arrive with the events.

    Conventions.
    - A JavaScript string is the list of its UTF-16 code units.
    - A JavaScript object used as a dictionary is a [gmap] from property
      names to values.
    - The numbers the program computes with are finite rationals or NaN;
      a finite double is a rational, and NaN is the only non-finite value
      the source can produce on the paths modelled here.  Rounding of
      quotients to the nearest double is not modelled. *)

From Stdlib Require Import ZArith QArith Qround Qminmax Ascii String Strings.Byte.
From stdpp Require Import base option list gmap strings.

Local Open Scope Z_scope.

(** ** JavaScript strings *)

Module JS.

Definition jschar := N.
Definition jsstring := list jschar.

Fixpoint of_string (s : string) : jsstring :=
  match s with
  | EmptyString => []
  | String a rest => N_of_ascii a :: of_string rest
  end.

(** [WhiteSpace] and [LineTerminator] of ECMAScript: the set that the
    regular expression escape [\s] matches and that
    [String.prototype.trim] strips. *)
Definition is_space (c : jschar) : bool :=
  ((9 <=? c) && (c <=? 13) || (c =? 32) || (c =? 160) || (c =? 5760)
   || (8192 <=? c) && (c <=? 8202)
   || (c =? 8232) || (c =? 8233) || (c =? 8239) || (c =? 8287)
   || (c =? 12288) || (c =? 65279))%N.

Fixpoint trimStart (s : jsstring) : jsstring :=
  match s with
  | c :: rest => if is_space c then trimStart rest else s
  | [] => []
  end.

Definition trimEnd (s : jsstring) : jsstring := rev (trimStart (rev s)).

Definition trim (s : jsstring) : jsstring := trimEnd (trimStart s).

(** The values that flow through the tag record: [null] (also standing
    for [undefined]) or a string. *)
Inductive value :=
| JNull
| JStr (s : jsstring).

(** [!!val] *)
Definition truthy (v : value) : bool :=
  match v with
  | JNull => false
  | JStr [] => false
  | JStr (_ :: _) => true
  end.

(** Numbers: a finite value or NaN. *)
Inductive number :=
| Fin (q : Q)
| NaN.

Definition of_nat (n : nat) : number := Fin (inject_Z (Z.of_nat n)).
Definition of_Z (z : Z) : number := Fin (inject_Z z).

(** [Math.ceil] *)
Definition ceil (x : number) : number :=
  match x with
  | Fin q => of_Z (Qceiling q)
  | NaN => NaN
  end.

(** [x - y] *)
Definition sub (x y : number) : number :=
  match x, y with
  | Fin a, Fin b => Fin (a - b)
  | _, _ => NaN
  end.

End JS.

Import JS.

Notation "'js' s" := (of_string s%string) (at level 1, s at level 0, only parsing).

(** ** The fragment of ECMAScript regular expressions the source uses *)

Module Regex.

Inductive atom :=
| Lit (c : jschar)                (* a literal character *)
| Class (p : jschar -> bool).     (* a character class *)

Inductive regex :=
| One (a : atom)                  (* a *)
| Plus (a : atom)                 (* a+, greedy *)
| Seq (r1 r2 : regex)             (* r1 r2 *)
| Group (n : nat) (r : regex).    (* ( r ), the n-th capturing group *)

Definition accepts (a : atom) (c : jschar) : bool :=
  match a with
  | Lit d => (c =? d)%N
  | Class p => p c
  end.

Definition captures := gmap nat jsstring.

(** A continuation receives the rest of the input and the captures so
    far, as the matcher continuations of the language definition do. *)
Definition cont := jsstring -> captures -> option captures.

(** Greedy repetition after the first iteration: consume one more
    character if possible, and only when everything after that fails
    hand the current position to the continuation. *)
Fixpoint more (a : atom) (s : jsstring) (caps : captures) (k : cont)
  : option captures :=
  match s with
  | c :: rest =>
      if accepts a c then
        match more a rest caps k with
        | Some m => Some m
        | None => k s caps
        end
      else k s caps
  | [] => k [] caps
  end.

Fixpoint rmatch (r : regex) (s : jsstring) (caps : captures) (k : cont)
  : option captures :=
  match r with
  | One a =>
      match s with
      | c :: rest => if accepts a c then k rest caps else None
      | [] => None
      end
  | Plus a =>
      match s with
      | c :: rest => if accepts a c then more a rest caps k else None
      | [] => None
      end
  | Seq r1 r2 => rmatch r1 s caps (fun s1 c1 => rmatch r2 s1 c1 k)
  | Group n r =>
      rmatch r s caps
        (fun s1 c1 => k s1 (<[n := take (length s - length s1) s]> c1))
  end.

(** One attempt at a fixed start position; capture 0 is the whole match. *)
Definition match_here (r : regex) (s : jsstring) : option captures :=
  rmatch r s ∅ (fun s1 c1 => Some (<[0%nat := take (length s - length s1) s]> c1)).

(** [RegExp.prototype.exec] without the global flag: the first start
    position, from the left, at which the pattern matches. *)
Fixpoint exec (r : regex) (s : jsstring) : option captures :=
  match match_here r s with
  | Some m => Some m
  | None =>
      match s with
      | _ :: rest => exec r rest
      | [] => None
      end
  end.

(** [m[i]] for a group that took part in the match. *)
Definition group (m : captures) (i : nat) : jsstring := default [] (m !! i).

End Regex.

Import Regex.

(** [[\S| ]]: a character that is not white space, or a vertical bar, or
    a space. *)
Definition title_class (c : jschar) : bool :=
  negb (is_space c) || (c =? 124)%N || (c =? 32)%N.

Definition hyphen : jschar := 45%N.

(** [const TITLE_REGEX = /([\S| ]+)-([\S| ]+)/;] *)
Definition TITLE_REGEX : regex :=
  Seq (Group 1 (Plus (Class title_class)))
      (Seq (One (Lit hyphen)) (Group 2 (Plus (Class title_class)))).


(** A string in which a hyphen, if there is one, is the last character:
    no hyphen of it has a character after it. *)
Fixpoint hyphen_only_last (s : jsstring) : bool :=
  match s with
  | [] => true
  | c :: rest =>
      if (c =? hyphen)%N then match rest with [] => true | _ :: _ => false end
      else hyphen_only_last rest
  end.

(** ** The metadata prompts

    [processMetadata] talks to the user through [prompt] (from
    [./prompt.js]) and [console.log].  It is embedded as the tree of
    these interactions, so that what it asks, in which order and with
    which options is read off the tree, independently of how a prompt
    produces its answer. *)

Record VideoInfo := { title : jsstring }.

(** The options object of a [prompt] call; a call without options is
    [no_options]. *)
Record PromptOpts := { required : bool; default : value }.

Definition no_options : PromptOpts := {| required := false; default := JNull |}.

Inductive interaction (A : Type) :=
| Ret (a : A)
| Print (line : string) (k : interaction A)
| Ask (msg : string) (o : PromptOpts) (k : value -> interaction A).

Arguments Ret {A} a.
Arguments Print {A} line k.
Arguments Ask {A} msg o k.

(** A tag object and the reading of one of its properties. *)
Abbreviation tags := (gmap string value).

Definition prop (o : tags) (k : string) : value := from_option id JNull (o !! k).

(** Lines 160 to 172: the record pre-filled from the video title. *)
Definition guessed (metadata : VideoInfo) : tags :=
  let meta : tags :=
    <["title" := JStr (title metadata)]>
      (<["artist" := JNull]>
         (<["album" := JNull]> (<["genre" := JNull]> (<["date" := JNull]> ∅)))) in
  match exec TITLE_REGEX (title metadata) with
  | Some songTitleMatch =>
      <["title" := JStr (trim (group songTitleMatch 2))]>
        (<["artist" := JStr (trim (group songTitleMatch 1))]> meta)
  | None => meta
  end.

Definition processMetadata (metadata : VideoInfo) : interaction tags :=
  let meta := guessed metadata in
  Print "Enter song metadata:"
    (Ask "Title: " {| required := true; default := prop meta "title" |} (fun v =>
     let meta := <["title" := v]> meta in
     Ask "Artist: " {| required := true; default := prop meta "artist" |} (fun v =>
     let meta := <["artist" := v]> meta in
     Ask "Album: " {| required := true; default := JNull |} (fun v =>
     let meta := <["album" := v]> meta in
     Ask "Genre: " no_options (fun v =>
     let meta := <["genre" := v]> meta in
     Ask "Year: " no_options (fun v =>
     let meta := <["date" := v]> meta in
     Ret meta)))))).

(** The questions a tree asks along the path selected by the answers. *)
Fixpoint asked {A} (ask : string -> PromptOpts -> value) (t : interaction A)
  : list (string * PromptOpts) :=
  match t with
  | Ret _ => []
  | Print _ k => asked ask k
  | Ask msg o k => (msg, o) :: asked ask (k (ask msg o))
  end.

(** The lines a tree prints with [console.log] along the path selected
    by the answers. *)
Fixpoint lines {A} (ask : string -> PromptOpts -> value) (t : interaction A)
  : list string :=
  match t with
  | Ret _ => []
  | Print line k => line :: lines ask k
  | Ask msg o k => lines ask (k (ask msg o))
  end.

(** The result of a tree when every [prompt] call returns what [ask]
    says: the return values of the absent helper are inputs. *)
Fixpoint answer_with {A} (ask : string -> PromptOpts -> value) (t : interaction A) : A :=
  match t with
  | Ret a => a
  | Print _ k => answer_with ask k
  | Ask msg o k => answer_with ask (k (ask msg o))
  end.

(** Modelled from the spec: [prompt] of [./prompt.js], which is not among
    the sources.  The user types lines.  A non-empty line is the answer.
    On an empty line the default is the answer when there is one; with
    no default a required field asks again, and fails when the input has
    ended, while an optional field is left blank. *)
Fixpoint prompt_spec (o : PromptOpts) (lines : list jsstring)
  : option (value * list jsstring) :=
  match lines with
  | [] => None
  | line :: rest =>
      if truthy (JStr line) then Some (JStr line, rest)
      else if truthy (default o) then Some (default o, rest)
      else if required o then prompt_spec o rest
      else Some (JStr [], rest)
  end.

(** A tree run against the lines the user types, every question answered
    by [prompt_spec]. *)
Fixpoint run_prompts {A} (t : interaction A) (lines : list jsstring)
  : option (A * list jsstring) :=
  match t with
  | Ret a => Some (a, lines)
  | Print _ k => run_prompts k lines
  | Ask _ o k =>
      match prompt_spec o lines with
      | Some (v, rest) => run_prompts (k v) rest
      | None => None
      end
  end.

(** [filter(obj, fn)] of the filter-object package: the properties whose
    value passes the test. *)
Definition filter_object (o : tags) (fn : value -> bool) : tags :=
  filter (fun kv => fn kv.2 = true) o.

(** ** Numbers read from text *)

Definition digit_value (radix : N) (c : jschar) : option N :=
  let d := (if (48 <=? c) && (c <=? 57) then Some (c - 48)
            else if (97 <=? c) && (c <=? 122) then Some (c - 87)
            else if (65 <=? c) && (c <=? 90) then Some (c - 55)
            else None)%N in
  match d with
  | Some n => if (n <? radix)%N then Some n else None
  | None => None
  end.

(** The value of the longest prefix of digits, [None] when the first
    character is not a digit. *)
Fixpoint digits (radix : N) (s : jsstring) (acc : option N) : option N :=
  match s with
  | c :: rest =>
      match digit_value radix c with
      | Some d => digits radix rest (Some (from_option id 0 acc * radix + d)%N)
      | None => acc
      end
  | [] => acc
  end.

(** [parseInt(v)] with no radix argument.  An absent header is
    [undefined], whose text has no digit. *)
Definition parseInt (v : option jsstring) : number :=
  match v with
  | None => NaN
  | Some text =>
      let t := trimStart text in
      let '(sign, t) :=
        match t with
        | 45%N :: r => (-1, r)
        | 43%N :: r => (1, r)
        | _ => (1, t)
        end in
      let '(radix, t) :=
        match t with
        | 48%N :: 120%N :: r => (16%N, r)
        | 48%N :: 88%N :: r => (16%N, r)
        | _ => (10%N, t)
        end in
      match digits radix t None with
      | Some n => of_Z (sign * Z.of_N n)
      | None => NaN
      end
  end.

(** ** Buffers *)

Abbreviation Buffer := (list byte).

(** [Buffer.concat(list, totalLength)]: the buffers one after the other
    in a new buffer of exactly [totalLength] bytes, cut or filled with
    zeros as needed. *)
Definition Buffer_concat (bufs : list Buffer) (totalLength : nat) : Buffer :=
  take totalLength (concat bufs ++ replicate (totalLength - length (concat bufs)) x00).

(** ** The globals of the script *)

Record Program := { args : list jsstring; intermediate : bool; lowQuality : bool }.

Inductive bar_format := META_PROGRESS_BAR_FORMAT | DL_PROGRESS_BAR_FORMAT | CONVERT_PROGRESS_BAR_FORMAT.

(** One call of [bar.tick(len, tokens)]; [tick()] passes no length. *)
Record Tick := { len : option number; tokens : list (string * jsstring) }.

(** A progress bar is known by how it was built and by the calls it has
    received, oldest first; its drawing belongs to the progress package. *)
Record ProgressBar := { format : bar_format; total : number; ticks : list Tick }.

Definition new_ProgressBar (f : bar_format) (n : number) : ProgressBar :=
  {| format := f; total := n; ticks := [] |}.

Definition tick (l : option number) (tk : list (string * jsstring)) (b : ProgressBar)
  : ProgressBar :=
  {| format := format b; total := total b; ticks := ticks b ++ [{| len := l; tokens := tk |}] |}.

(** A deferred of the q package: its promise calls the registered
    callback once, after [resolve]. *)
Inductive promise := Pending | Resolved | Delivered.

Definition resolve (p : promise) : promise :=
  match p with
  | Pending => Resolved
  | _ => p
  end.

(** What [ffProbe] hands to its callback on success. *)
Record ProbeData := { filename : jsstring; size : number; duration : number; bit_rate : number }.

(** What the script does to the outside world.  A line of the report
    that goes through [util.prettyTime] (of [./util.js], not among the
    sources) carries the number handed to it.  [WriteFile] and [Unlink]
    are file operations that succeeded.  [Prompted] marks the moment the
    prompts of the metadata stage have all returned, with the clock
    reading of that moment. *)
Inductive output :=
| Help
| Header
| Console (line : string)
| Prompted (until : Q)
| Fetch (url : jsstring) (quality : string)
| ErrorLine (msg : string)
| WarningLine (msg : string)
| WriteFile (path : jsstring) (content : Buffer)
| Unlink (path : jsstring)
| Convert (source target : jsstring)
| WriteTags (path : jsstring) (metadata : tags)
| Probe (path : jsstring)
| Completed
| UnableToRead
| Runtime (seconds : Q)
| File (name : jsstring)
| Size (text : jsstring)
| Length (seconds : number)
| BitRate (text : jsstring).

Record State := {
  program : Program;
  data : Buffer;
  videoMetadata : option VideoInfo;
  videoFileName : option jsstring;
  musicFileName : option jsstring;
  totalSize : number;
  startTime : Q;
  endTime : Q;
  downloadProgress : ProgressBar;
  convertProgress : option ProgressBar;
  last : number;
  downloadCompleted : promise;
  convertCompleted : promise;
  metadataCompleted : promise;
  reported : bool;
  out : list output
}.

Definition set_data (v : Buffer) (s : State) : State :=
  {| program := program s;
     data := v;
     videoMetadata := videoMetadata s;
     videoFileName := videoFileName s;
     musicFileName := musicFileName s;
     totalSize := totalSize s;
     startTime := startTime s;
     endTime := endTime s;
     downloadProgress := downloadProgress s;
     convertProgress := convertProgress s;
     last := last s;
     downloadCompleted := downloadCompleted s;
     convertCompleted := convertCompleted s;
     metadataCompleted := metadataCompleted s;
     reported := reported s;
     out := out s |}.

Definition set_videoMetadata (v : option VideoInfo) (s : State) : State :=
  {| program := program s;
     data := data s;
     videoMetadata := v;
     videoFileName := videoFileName s;
     musicFileName := musicFileName s;
     totalSize := totalSize s;
     startTime := startTime s;
     endTime := endTime s;
     downloadProgress := downloadProgress s;
     convertProgress := convertProgress s;
     last := last s;
     downloadCompleted := downloadCompleted s;
     convertCompleted := convertCompleted s;
     metadataCompleted := metadataCompleted s;
     reported := reported s;
     out := out s |}.

Definition set_videoFileName (v : option jsstring) (s : State) : State :=
  {| program := program s;
     data := data s;
     videoMetadata := videoMetadata s;
     videoFileName := v;
     musicFileName := musicFileName s;
     totalSize := totalSize s;
     startTime := startTime s;
     endTime := endTime s;
     downloadProgress := downloadProgress s;
     convertProgress := convertProgress s;
     last := last s;
     downloadCompleted := downloadCompleted s;
     convertCompleted := convertCompleted s;
     metadataCompleted := metadataCompleted s;
     reported := reported s;
     out := out s |}.

Definition set_musicFileName (v : option jsstring) (s : State) : State :=
  {| program := program s;
     data := data s;
     videoMetadata := videoMetadata s;
     videoFileName := videoFileName s;
     musicFileName := v;
     totalSize := totalSize s;
     startTime := startTime s;
     endTime := endTime s;
     downloadProgress := downloadProgress s;
     convertProgress := convertProgress s;
     last := last s;
     downloadCompleted := downloadCompleted s;
     convertCompleted := convertCompleted s;
     metadataCompleted := metadataCompleted s;
     reported := reported s;
     out := out s |}.

Definition set_totalSize (v : number) (s : State) : State :=
  {| program := program s;
     data := data s;
     videoMetadata := videoMetadata s;
     videoFileName := videoFileName s;
     musicFileName := musicFileName s;
     totalSize := v;
     startTime := startTime s;
     endTime := endTime s;
     downloadProgress := downloadProgress s;
     convertProgress := convertProgress s;
     last := last s;
     downloadCompleted := downloadCompleted s;
     convertCompleted := convertCompleted s;
     metadataCompleted := metadataCompleted s;
     reported := reported s;
     out := out s |}.

Definition set_endTime (v : Q) (s : State) : State :=
  {| program := program s;
     data := data s;
     videoMetadata := videoMetadata s;
     videoFileName := videoFileName s;
     musicFileName := musicFileName s;
     totalSize := totalSize s;
     startTime := startTime s;
     endTime := v;
     downloadProgress := downloadProgress s;
     convertProgress := convertProgress s;
     last := last s;
     downloadCompleted := downloadCompleted s;
     convertCompleted := convertCompleted s;
     metadataCompleted := metadataCompleted s;
     reported := reported s;
     out := out s |}.

Definition set_downloadProgress (v : ProgressBar) (s : State) : State :=
  {| program := program s;
     data := data s;
     videoMetadata := videoMetadata s;
     videoFileName := videoFileName s;
     musicFileName := musicFileName s;
     totalSize := totalSize s;
     startTime := startTime s;
     endTime := endTime s;
     downloadProgress := v;
     convertProgress := convertProgress s;
     last := last s;
     downloadCompleted := downloadCompleted s;
     convertCompleted := convertCompleted s;
     metadataCompleted := metadataCompleted s;
     reported := reported s;
     out := out s |}.

Definition set_convertProgress (v : option ProgressBar) (s : State) : State :=
  {| program := program s;
     data := data s;
     videoMetadata := videoMetadata s;
     videoFileName := videoFileName s;
     musicFileName := musicFileName s;
     totalSize := totalSize s;
     startTime := startTime s;
     endTime := endTime s;
     downloadProgress := downloadProgress s;
     convertProgress := v;
     last := last s;
     downloadCompleted := downloadCompleted s;
     convertCompleted := convertCompleted s;
     metadataCompleted := metadataCompleted s;
     reported := reported s;
     out := out s |}.

Definition set_last (v : number) (s : State) : State :=
  {| program := program s;
     data := data s;
     videoMetadata := videoMetadata s;
     videoFileName := videoFileName s;
     musicFileName := musicFileName s;
     totalSize := totalSize s;
     startTime := startTime s;
     endTime := endTime s;
     downloadProgress := downloadProgress s;
     convertProgress := convertProgress s;
     last := v;
     downloadCompleted := downloadCompleted s;
     convertCompleted := convertCompleted s;
     metadataCompleted := metadataCompleted s;
     reported := reported s;
     out := out s |}.

Definition set_downloadCompleted (v : promise) (s : State) : State :=
  {| program := program s;
     data := data s;
     videoMetadata := videoMetadata s;
     videoFileName := videoFileName s;
     musicFileName := musicFileName s;
     totalSize := totalSize s;
     startTime := startTime s;
     endTime := endTime s;
     downloadProgress := downloadProgress s;
     convertProgress := convertProgress s;
     last := last s;
     downloadCompleted := v;
     convertCompleted := convertCompleted s;
     metadataCompleted := metadataCompleted s;
     reported := reported s;
     out := out s |}.

Definition set_convertCompleted (v : promise) (s : State) : State :=
  {| program := program s;
     data := data s;
     videoMetadata := videoMetadata s;
     videoFileName := videoFileName s;
     musicFileName := musicFileName s;
     totalSize := totalSize s;
     startTime := startTime s;
     endTime := endTime s;
     downloadProgress := downloadProgress s;
     convertProgress := convertProgress s;
     last := last s;
     downloadCompleted := downloadCompleted s;
     convertCompleted := v;
     metadataCompleted := metadataCompleted s;
     reported := reported s;
     out := out s |}.

Definition set_metadataCompleted (v : promise) (s : State) : State :=
  {| program := program s;
     data := data s;
     videoMetadata := videoMetadata s;
     videoFileName := videoFileName s;
     musicFileName := musicFileName s;
     totalSize := totalSize s;
     startTime := startTime s;
     endTime := endTime s;
     downloadProgress := downloadProgress s;
     convertProgress := convertProgress s;
     last := last s;
     downloadCompleted := downloadCompleted s;
     convertCompleted := convertCompleted s;
     metadataCompleted := v;
     reported := reported s;
     out := out s |}.

Definition set_reported (v : bool) (s : State) : State :=
  {| program := program s;
     data := data s;
     videoMetadata := videoMetadata s;
     videoFileName := videoFileName s;
     musicFileName := musicFileName s;
     totalSize := totalSize s;
     startTime := startTime s;
     endTime := endTime s;
     downloadProgress := downloadProgress s;
     convertProgress := convertProgress s;
     last := last s;
     downloadCompleted := downloadCompleted s;
     convertCompleted := convertCompleted s;
     metadataCompleted := metadataCompleted s;
     reported := v;
     out := out s |}.

Definition set_out (v : list output) (s : State) : State :=
  {| program := program s;
     data := data s;
     videoMetadata := videoMetadata s;
     videoFileName := videoFileName s;
     musicFileName := musicFileName s;
     totalSize := totalSize s;
     startTime := startTime s;
     endTime := endTime s;
     downloadProgress := downloadProgress s;
     convertProgress := convertProgress s;
     last := last s;
     downloadCompleted := downloadCompleted s;
     convertCompleted := convertCompleted s;
     metadataCompleted := metadataCompleted s;
     reported := reported s;
     out := v |}.

(** How a handler ends: it returns; or the process exits with a status;
    or an exception leaves an event listener uncaught, which kills the
    process; or an exception leaves the callback of a promise, where the
    q package keeps it: the process is not killed, but nothing of the
    pipeline is scheduled any more and the process ends when the event
    loop is empty. *)
Inductive outcome :=
| Running (s : State)
| Exited (code : Z) (printed : list output)
| Uncaught (printed : list output)
| Abandoned (printed : list output).

Definition say (o : output) (s : State) : State := set_out (out s ++ [o]) s.

(** [error(err, msg)]: print and leave with status 25. *)
Definition error (msg : string) (s : State) : outcome :=
  Exited 25 (out s ++ [ErrorLine msg]).

(** [warning(err, msg)] *)
Definition warning (msg : string) (s : State) : State := say (WarningLine msg) s.

(** ** The script, handler by handler *)

Section Script.

(** [prettyBytes] of the pretty-bytes package: a text, or an exception
    ([None]) on a number it rejects. *)
Variable prettyBytes : number -> option jsstring.

(** Lines 31 to 72: option parsing, the check of the URL argument, the
    initial values of the globals and the start of the download.  [t0]
    and [t1] are the two readings of [util.nowSeconds()]. *)
Definition main (prog : Program) (t0 t1 : Q) : outcome :=
  match args prog !! 0%nat with
  | Some (c :: u) =>
      Running
        {| program := prog;
           data := [];
           videoMetadata := None;
           videoFileName := None;
           musicFileName := None;
           totalSize := of_Z (-1);
           startTime := t0;
           endTime := t1;
           downloadProgress := new_ProgressBar META_PROGRESS_BAR_FORMAT (of_Z 2);
           convertProgress := None;
           last := of_Z 0;
           downloadCompleted := Pending;
           convertCompleted := Pending;
           metadataCompleted := Pending;
           reported := false;
           out := [Header; Fetch (c :: u) (if lowQuality prog then "lowest" else "highest")] |}
  | _ => Exited 55 [Help]
  end.

(** [.on('info', ...)] *)
Definition on_info (info : VideoInfo) (s : State) : outcome :=
  let s := set_downloadProgress (tick None [] (downloadProgress s)) s in
  Running (set_videoMetadata (Some info) s).

(** [.on('response', ...)]; [content_length] is
    [response.headers['content-length']]. *)
Definition on_response (content_length : option jsstring) (s : State) : outcome :=
  let s := set_downloadProgress (tick None [] (downloadProgress s)) s in
  let s := set_totalSize (parseInt content_length) s in
  Running (set_downloadProgress (new_ProgressBar DL_PROGRESS_BAR_FORMAT (totalSize s)) s).

(** [data.length / Math.max((now - startTime), 1)] *)
Definition dlRate (received : nat) (start now : Q) : Q :=
  inject_Z (Z.of_nat received) / Qmax (now - start) 1.

(** [.on('data', ...)]; the arguments of [tick] are evaluated, left to
    right, before the call. *)
Definition on_data (chunk : Buffer) (now : Q) (s : State) : outcome :=
  let s := set_data (Buffer_concat [data s; chunk] (length (data s) + length chunk)) s in
  let rate := dlRate (length (data s)) (startTime s) now in
  match prettyBytes (of_nat (length (data s))) with
  | None => Uncaught (out s)
  | Some received =>
      match prettyBytes (totalSize s) with
      | None => Uncaught (out s)
      | Some expected =>
          match prettyBytes (Fin rate) with
          | None => Uncaught (out s)
          | Some speed =>
              Running
                (set_downloadProgress
                   (tick (Some (of_nat (length chunk)))
                      [("amount", received ++ js "/" ++ expected);
                       ("rate", speed ++ js "/s")]
                      (downloadProgress s)) s)
          end
      end
  end.

(** [.on('end', ...)] *)
Definition on_end (s : State) : outcome :=
  Running (set_downloadCompleted (resolve (downloadCompleted s)) s).

(** [.on('error', ...)] of the download *)
Definition on_error (s : State) : outcome :=
  error "Unable to download video from youtube." s.

(** The callback of [downloadCompleted.promise]: lines 100 to 130.
    Reading [videoMetadata.title] of [null] is a TypeError, and
    [fs.writeFileSync] throws when the file cannot be written ([stored]
    is [false]); either exception stays in the promise. *)
Definition download_then (stored : bool) (s : State) : outcome :=
  match videoMetadata s with
  | None => Abandoned (out s)
  | Some info =>
      let video := title info ++ js ".mp4" in
      let music := title info ++ js ".mp3" in
      let video := if intermediate (program s) then video else js "/tmp/" ++ video in
      let s := set_videoFileName (Some video) s in
      let s := set_musicFileName (Some music) s in
      if stored then
        let s := say (WriteFile video (data s)) s in
        let s := set_convertProgress
                   (Some (new_ProgressBar CONVERT_PROGRESS_BAR_FORMAT (of_Z 100))) s in
        let s := set_last (of_Z 0) s in
        Running (say (Convert video music) s)
      else Abandoned (out s)
  end.

(** [.on('error', ...)] of the conversion *)
Definition ffmpeg_error (s : State) : outcome :=
  error "Ffmpeg encountered an error converting video to mp3." s.

(** [.on('progress', ...)] *)
Definition ffmpeg_progress (percent : number) (currentKbps : jsstring) (s : State) : outcome :=
  let diff := sub (ceil percent) (last s) in
  let s := set_last (ceil percent) s in
  Running
    (set_convertProgress
       (option_map (tick (Some diff) [("rate", currentKbps ++ js "kbps")])
          (convertProgress s)) s).

(** [.on('end', ...)] of the conversion.  [fs.unlinkSync] throws when
    the file cannot be deleted ([removed] is [false]); the exception
    leaves the listener before the promise is resolved. *)
Definition ffmpeg_end (removed : bool) (s : State) : outcome :=
  if intermediate (program s) then
    Running (set_convertCompleted (resolve (convertCompleted s)) s)
  else if removed then
    let s := say (Unlink (from_option id [] (videoFileName s))) s in
    Running (set_convertCompleted (resolve (convertCompleted s)) s)
  else Uncaught (out s).

(** The callback of [convertCompleted.promise]: lines 133 to 141.
    [now] is the clock when the callback starts.  [ask] is what the
    prompts return; they block until the user has typed, for [typing]
    seconds in all, so what follows them runs at [now + typing].  An
    exception ([processMetadata(null)]) stays in the promise. *)
Definition convert_then (ask : string -> PromptOpts -> value) (typing : Q)
    (now : Q) (s : State) : outcome :=
  let s := set_endTime now s in
  match videoMetadata s with
  | None => Abandoned (out s)
  | Some info =>
      let s := set_out (out s ++ map Console (lines ask (processMetadata info))) s in
      let metadata := answer_with ask (processMetadata info) in
      let now := (now + typing)%Q in
      let s := say (Prompted now) s in
      let filtered := filter_object metadata truthy in
      Running (say (WriteTags (from_option id [] (musicFileName s)) metadata) s)
  end.

(** The callback handed to [ffMetadata.write] *)
Definition tags_written (err : bool) (s : State) : outcome :=
  let s := if err then warning "Failed to write mp3 metadata." s else s in
  Running (set_metadataCompleted (resolve (metadataCompleted s)) s).

(** The callback of [metadataCompleted.promise]: lines 144 to 146 *)
Definition metadata_then (s : State) : outcome :=
  let s := say Completed s in
  Running (say (Probe (from_option id [] (musicFileName s))) s).

(** The callback handed to [ffProbe]: lines 147 to 154 *)
Definition probed (res : option ProbeData) (s : State) : outcome :=
  let s := set_reported true s in
  match res with
  | None => Running (say UnableToRead s)
  | Some d =>
      let s := say (Runtime (endTime s - startTime s)) s in
      let s := say (File (filename d)) s in
      match prettyBytes (size d) with
      | None => Uncaught (out s)
      | Some text =>
          let s := say (Size text) s in
          let s := say (Length (duration d)) s in
          match prettyBytes (bit_rate d) with
          | None => Uncaught (out s)
          | Some rate => Running (say (BitRate (rate ++ js "ps")) s)
          end
      end
  end.

(** ** The event loop *)

Inductive event :=
| YtInfo (info : VideoInfo)
| YtResponse (content_length : option jsstring)
| YtData (chunk : Buffer)
| YtEnd
| YtError
| DownloadThen (stored : bool)
| FfProgress (percent : number) (currentKbps : jsstring)
| FfError
| FfEnd (removed : bool)
| ConvertThen (ask : string -> PromptOpts -> value) (typing : Q)
| TagsWritten (err : bool)
| MetadataThen
| Probed (res : option ProbeData).

(** The conversion handlers exist once the callback of the download
    promise has run. *)
Definition converting (s : State) : bool :=
  match downloadCompleted s with
  | Delivered => true
  | _ => false
  end.

(** One event at clock reading [now].  A promise callback runs when its
    promise is resolved, once; an event nobody listens to changes
    nothing. *)
Definition step (now : Q) (e : event) (s : State) : outcome :=
  match e with
  | YtInfo info => on_info info s
  | YtResponse h => on_response h s
  | YtData chunk => on_data chunk now s
  | YtEnd => on_end s
  | YtError => on_error s
  | DownloadThen stored =>
      match downloadCompleted s with
      | Resolved => download_then stored (set_downloadCompleted Delivered s)
      | _ => Running s
      end
  | FfProgress percent kbps => if converting s then ffmpeg_progress percent kbps s else Running s
  | FfError => if converting s then ffmpeg_error s else Running s
  | FfEnd removed => if converting s then ffmpeg_end removed s else Running s
  | ConvertThen ask typing =>
      match convertCompleted s with
      | Resolved => convert_then ask typing now (set_convertCompleted Delivered s)
      | _ => Running s
      end
  | TagsWritten err =>
      match convertCompleted s with
      | Delivered => tags_written err s
      | _ => Running s
      end
  | MetadataThen =>
      match metadataCompleted s with
      | Resolved => metadata_then (set_metadataCompleted Delivered s)
      | _ => Running s
      end
  | Probed res =>
      match metadataCompleted s with
      | Delivered => probed res s
      | _ => Running s
      end
  end.

(** A schedule of timed events, run until the process is gone. *)
Fixpoint run (events : list (Q * event)) (o : outcome) : outcome :=
  match events, o with
  | (now, e) :: rest, Running s => run rest (step now e s)
  | _, _ => o
  end.

(** The exit status of the process: the argument of [process.exit], 0
    when the report is out and nothing is left to do, 1 for an uncaught
    exception, 0 when a promise kept the exception; none while the script
    still waits for events. *)
Definition exit_status (o : outcome) : option Z :=
  match o with
  | Exited code _ => Some code
  | Uncaught _ => Some 1
  | Abandoned _ => Some 0
  | Running s => if reported s then Some 0 else None
  end.

Definition printed_by (o : outcome) : list output :=
  match o with
  | Running s => out s
  | Exited _ l => l
  | Uncaught l => l
  | Abandoned l => l
  end.

End Script.

(** An instance of the byte formatter for closed examples: it rejects
    NaN, as pretty-bytes does, and prints the whole bytes of a finite
    number in unary, which is not the package's rendering. *)
Definition prettyBytes_guarded (n : number) : option jsstring :=
  match n with
  | NaN => None
  | Fin q => Some (replicate (Z.to_nat (Qfloor q)) 35%N ++ js " B")
  end.

(** ** Observations on a run *)

(** The tag sets handed to [ffMetadata.write], oldest first. *)
Definition written_tags (l : list output) : list tags :=
  omap (fun o => match o with WriteTags _ m => Some m | _ => None end) l.

(** The numbers of seconds shown on the [Runtime] line. *)
Definition printed_runtime (l : list output) : list Q :=
  omap (fun o => match o with Runtime q => Some q | _ => None end) l.

(** The clock readings at which the prompts had returned. *)
Definition prompts_returned (l : list output) : list Q :=
  omap (fun o => match o with Prompted t => Some t | _ => None end) l.

(** The lengths passed to the calls of [tick]. *)
Definition tick_lengths (b : ProgressBar) : list (option number) := map len (ticks b).

(** The chunk events of a download, each with its clock reading. *)
Definition chunk_events (chunks : list (Q * Buffer)) : list (Q * event) :=
  map (fun tc => (tc.1, YtData tc.2)) chunks.

Definition received (chunks : list (Q * Buffer)) : nat :=
  length (concat (map snd chunks)).

(** The progress events of a conversion. *)
Definition progress_events (reports : list (Q * Q * jsstring)) : list (Q * event) :=
  map (fun r => (r.1.1, FfProgress (Fin r.1.2) r.2)) reports.

(** The claim about progress in its own words: every report is worth
    the ceiling of its percentage minus the ceiling recorded before. *)
Fixpoint ceiling_deltas (previous : Z) (percents : list Q) : list Z :=
  match percents with
  | [] => []
  | p :: rest => (Qceiling p - previous) :: ceiling_deltas (Qceiling p) rest
  end.

(** Percentages that start at or above [previous] and never go down. *)
Fixpoint cumulative (previous : Q) (percents : list Q) : Prop :=
  match percents with
  | [] => True
  | p :: rest => (previous <= p)%Q /\ cumulative p rest
  end.

(** ** A complete run, for closed examples *)

Definition demo_program : Program :=
  {| args := [js "https://youtu.be/dQw4w9WgXcQ"]; intermediate := false; lowQuality := false |}.

(** The user accepts the offered title and artist, types an album and
    leaves the two optional fields blank; in the demo run this takes 40
    seconds. *)
Definition demo_answers (msg : string) (o : PromptOpts) : value :=
  if decide (msg = "Album: ") then JStr (js "Album")
  else if truthy (default o) then default o
  else JStr [].

Definition demo_fetch : list (Q * event) :=
  [ (0%Q, YtInfo {| title := js "Artist - Title" |});
    (1%Q, YtResponse (Some (js "3")));
    (1%Q, YtData [x01; x02]);
    (2%Q, YtData [x03]);
    (2%Q, YtEnd);
    (2%Q, DownloadThen true) ].

Definition demo_convert : list (Q * event) :=
  [ (3%Q, FfProgress (Fin 0) (js "128"));
    (6%Q, FfProgress (Fin (99 # 2)) (js "128"));
    (10%Q, FfProgress (Fin 100) (js "128"));
    (10%Q, FfEnd true) ].

Definition demo_tagging : list (Q * event) :=
  [ (10%Q, ConvertThen demo_answers 40);
    (50%Q, TagsWritten false);
    (50%Q, MetadataThen);
    (51%Q, Probed (Some {| filename := js "Artist - Title.mp3";
                           size := of_Z 3; duration := of_Z 1; bit_rate := of_Z 24 |})) ].

Definition demo_run (events : list (Q * event)) : outcome :=
  run prettyBytes_guarded events (main demo_program 0 0).

(** The globals before the script has set any of them. *)
Definition unset : State :=
  {| program := demo_program; data := []; videoMetadata := None;
     videoFileName := None; musicFileName := None; totalSize := NaN;
     startTime := 0; endTime := 0;
     downloadProgress := new_ProgressBar META_PROGRESS_BAR_FORMAT NaN;
     convertProgress := None; last := NaN;
     downloadCompleted := Pending; convertCompleted := Pending;
     metadataCompleted := Pending; reported := false; out := [] |}.

(** The globals of the demo run after the given events, while the
    process lives. *)
Definition demo_state (events : list (Q * event)) : State :=
  match demo_run events with
  | Running s => s
  | _ => unset
  end.

(** The paths handed to [fs.unlinkSync], oldest first. *)
Definition unlinked (l : list output) : list jsstring :=
  omap (fun o => match o with Unlink p => Some p | _ => None end) l.

(** The files handed to [fs.writeFileSync], oldest first. *)
Definition written_files (l : list output) : list (jsstring * Buffer) :=
  omap (fun o => match o with WriteFile p d => Some (p, d) | _ => None end) l.

(** [Number.MAX_VALUE], the largest finite number: a longer string of
    digits is read as [Infinity], which [number] does not have. *)
Definition MAX_VALUE : Q := inject_Z (2 ^ 1024 - 2 ^ 971).

(** The globals when the event loop starts, for a program with a URL. *)
Definition started (prog : Program) (t0 t1 : Q) : State :=
  match main prog t0 t1 with
  | Running s => s
  | _ => unset
  end.

(** The demo program with both options set. *)
Definition keeping_program : Program :=
  {| args := [js "https://youtu.be/dQw4w9WgXcQ"]; intermediate := true; lowQuality := true |}.

(** A string that neither starts nor ends with white space. *)
Definition trimmed (s : jsstring) : Prop :=
  match s with c :: _ => is_space c = false | [] => True end
  /\ match rev s with c :: _ => is_space c = false | [] => True end.

(** * Properties *)

(** ** The title pattern *)

Section TitlePattern.

Implicit Types (s l r t : jsstring) (caps : captures) (k : cont).

Lemma more_none a r caps k :
  (forall t, t `suffix_of` r -> k t caps = None) -> more a r caps k = None.
Proof.
  induction r as [|c rest IH]; intros Hk; simpl.
  - apply Hk. done.
  - assert (Hrest : more a rest caps k = None).
    { apply IH. intros t Ht. apply Hk. by apply suffix_cons_r. }
    rewrite Hrest. destruct (accepts a c); apply Hk; done.
Qed.

Lemma more_app_some a l t caps k m :
  Forall (fun c => accepts a c = true) l ->
  more a t caps k = Some m -> more a (l ++ t) caps k = Some m.
Proof.
  intros Hl Ht. induction Hl as [|c l Hc _ IH]; simpl; [done|].
  by rewrite Hc, IH.
Qed.

Lemma more_to_the_end a r caps k m :
  Forall (fun c => accepts a c = true) r ->
  k [] caps = Some m -> more a r caps k = Some m.
Proof.
  intros Hr Hk. induction Hr as [|c r Hc _ IH]; simpl; [done|].
  by rewrite Hc, IH.
Qed.

(** After a stretch without hyphen the literal hyphen of the pattern
    has nothing to match, wherever the first group stops. *)
Lemma hyphen_missing r t caps (rest : regex) k :
  hyphen ∉ r -> t `suffix_of` r ->
  rmatch (Seq (One (Lit hyphen)) rest) t caps k = None.
Proof.
  intros Hr [pre ->]. destruct t as [|c t]; simpl; [done|].
  destruct (N.eqb_spec c hyphen) as [->|]; [|done].
  exfalso. apply Hr. set_solver.
Qed.

Lemma hyphen_in_class : title_class hyphen = true.
Proof. reflexivity. Qed.

Lemma take_consumed (l t : jsstring) : take (length (l ++ t) - length t) (l ++ t) = l.
Proof.
  rewrite length_app.
  replace (length l + length t - length t)%nat with (length l) by lia.
  by rewrite take_app_length.
Qed.

Lemma rmatch_plus_split a l c r caps k m :
  l <> [] ->
  Forall (fun c => accepts a c = true) l ->
  accepts a c = true ->
  (forall t, t `suffix_of` r -> k t caps = None) ->
  k (c :: r) caps = Some m ->
  rmatch (Plus a) (l ++ c :: r) caps k = Some m.
Proof.
  intros Hl Cl Hc Hr Hk. destruct l as [|c0 l]; [done|].
  apply Forall_cons in Cl as [C0 Cl].
  change (rmatch (Plus a) ((c0 :: l) ++ c :: r) caps k)
    with (if accepts a c0 then more a (l ++ c :: r) caps k else None).
  rewrite C0. apply more_app_some; [done|].
  change (more a (c :: r) caps k)
    with (if accepts a c
          then match more a r caps k with Some m => Some m | None => k (c :: r) caps end
          else k (c :: r) caps).
  by rewrite Hc, more_none.
Qed.

Lemma rmatch_group_plus_all n a r caps k m :
  r <> [] ->
  Forall (fun c => accepts a c = true) r ->
  k [] (<[n := r]> caps) = Some m ->
  rmatch (Group n (Plus a)) r caps k = Some m.
Proof.
  intros Hr Cr Hk. destruct r as [|c r]; [done|].
  apply Forall_cons in Cr as [Hc Cr].
  change (rmatch (Group n (Plus a)) (c :: r) caps k)
    with (if accepts a c
          then more a r caps
                 (fun s1 c1 => k s1 (<[n := take (length (c :: r) - length s1) (c :: r)]> c1))
          else None).
  rewrite Hc. apply more_to_the_end; [done|].
  cbv beta. change (length (@nil jschar)) with 0%nat.
  by rewrite Nat.sub_0_r, firstn_all.
Qed.

(** The match at the first position of a title whose last hyphen is
    followed by at least one character of the class. *)
Lemma match_here_split l r :
  l <> [] -> r <> [] ->
  Forall (fun c => title_class c = true) l ->
  Forall (fun c => title_class c = true) r ->
  hyphen ∉ r ->
  match_here TITLE_REGEX (l ++ hyphen :: r)
  = Some (<[0%nat := l ++ hyphen :: r]> (<[2%nat := r]> (<[1%nat := l]> ∅))).
Proof.
  intros Hl Hr Cl Cr Hh. unfold match_here, TITLE_REGEX.
  set (whole := l ++ hyphen :: r).
  set (finish := fun (s1 : jsstring) (c1 : captures) =>
                   Some (<[0%nat := take (length whole - length s1) whole]> c1)).
  set (tail := Seq (One (Lit hyphen)) (Group 2 (Plus (Class title_class)))).
  change (rmatch (Seq (Group 1 (Plus (Class title_class))) tail) whole ∅ finish)
    with (rmatch (Plus (Class title_class)) whole ∅
            (fun s1 c1 => rmatch tail s1
                            (<[1%nat := take (length whole - length s1) whole]> c1) finish)).
  apply rmatch_plus_split; [done|done|exact hyphen_in_class| |].
  - intros t Ht. cbv beta. by apply (hyphen_missing r).
  - cbv beta. unfold whole at 1 2. rewrite take_consumed.
    change (rmatch tail (hyphen :: r) (<[1%nat := l]> ∅) finish)
      with (if (hyphen =? hyphen)%N
            then rmatch (Group 2 (Plus (Class title_class))) r (<[1%nat := l]> ∅) finish
            else None).
    rewrite N.eqb_refl. apply rmatch_group_plus_all; [done|done|].
    unfold finish. change (length (@nil jschar)) with 0%nat.
    by rewrite Nat.sub_0_r, firstn_all.
Qed.

Lemma hyphen_only_last_spec r pre post :
  hyphen_only_last r = true -> r = pre ++ hyphen :: post -> post = [].
Proof.
  revert r. induction pre as [|d pre IH]; intros r Hr ->; cbn [app hyphen_only_last] in Hr.
  - rewrite N.eqb_refl in Hr. by destruct post.
  - destruct (d =? hyphen)%N.
    + by destruct pre.
    + by apply (IH _ Hr).
Qed.

(** A hyphen that nothing follows cannot be the hyphen of the pattern. *)
Lemma hyphen_unusable r t caps k :
  hyphen_only_last r = true ->
  t `suffix_of` r ->
  rmatch (Seq (One (Lit hyphen)) (Group 2 (Plus (Class title_class)))) t caps k = None.
Proof.
  intros Hr [pre ->]. destruct t as [|c t]; simpl; [done|].
  destruct (N.eqb_spec c hyphen) as [->|]; [|done].
  by rewrite (hyphen_only_last_spec _ pre t Hr eq_refl).
Qed.

(** The match at the first position of a title of characters of the
    class: the first group stops before the last hyphen that something
    follows. *)
Lemma match_here_split_last l c r :
  l <> [] ->
  Forall (fun c => title_class c = true) l ->
  Forall (fun c => title_class c = true) (c :: r) ->
  hyphen_only_last (c :: r) = true ->
  match_here TITLE_REGEX (l ++ hyphen :: c :: r)
  = Some (<[0%nat := l ++ hyphen :: c :: r]> (<[2%nat := c :: r]> (<[1%nat := l]> ∅))).
Proof.
  intros Hl Cl Cr Hh. unfold match_here, TITLE_REGEX.
  set (whole := l ++ hyphen :: c :: r).
  set (finish := fun (s1 : jsstring) (c1 : captures) =>
                   Some (<[0%nat := take (length whole - length s1) whole]> c1)).
  set (tail := Seq (One (Lit hyphen)) (Group 2 (Plus (Class title_class)))).
  change (rmatch (Seq (Group 1 (Plus (Class title_class))) tail) whole ∅ finish)
    with (rmatch (Plus (Class title_class)) whole ∅
            (fun s1 c1 => rmatch tail s1
                            (<[1%nat := take (length whole - length s1) whole]> c1) finish)).
  apply rmatch_plus_split; [done|done|exact hyphen_in_class| |].
  - intros t Ht. cbv beta. by apply (hyphen_unusable (c :: r)).
  - cbv beta. unfold whole at 1 2. rewrite take_consumed.
    change (rmatch tail (hyphen :: c :: r) (<[1%nat := l]> ∅) finish)
      with (if (hyphen =? hyphen)%N
            then rmatch (Group 2 (Plus (Class title_class))) (c :: r) (<[1%nat := l]> ∅) finish
            else None).
    rewrite N.eqb_refl. apply rmatch_group_plus_all; [done|done|].
    unfold finish. change (length (@nil jschar)) with 0%nat.
    by rewrite Nat.sub_0_r, firstn_all.
Qed.

Lemma exec_split_last l c r :
  l <> [] ->
  Forall (fun c => title_class c = true) l ->
  Forall (fun c => title_class c = true) (c :: r) ->
  hyphen_only_last (c :: r) = true ->
  exec TITLE_REGEX (l ++ hyphen :: c :: r)
  = Some (<[0%nat := l ++ hyphen :: c :: r]> (<[2%nat := c :: r]> (<[1%nat := l]> ∅))).
Proof.
  intros. assert (M := match_here_split_last l c r).
  destruct l; [done|]. simpl in *. rewrite M; done.
Qed.

Lemma exec_split l r :
  l <> [] -> r <> [] ->
  Forall (fun c => title_class c = true) l ->
  Forall (fun c => title_class c = true) r ->
  hyphen ∉ r ->
  exec TITLE_REGEX (l ++ hyphen :: r)
  = Some (<[0%nat := l ++ hyphen :: r]> (<[2%nat := r]> (<[1%nat := l]> ∅))).
Proof.
  intros. assert (M := match_here_split l r).
  destruct l; [done|]. simpl in *. rewrite M; done.
Qed.

Lemma match_here_no_hyphen s : hyphen ∉ s -> match_here TITLE_REGEX s = None.
Proof.
  intros Hs. unfold match_here, TITLE_REGEX.
  set (finish := fun (s1 : jsstring) (c1 : captures) =>
                   Some (<[0%nat := take (length s - length s1) s]> c1)).
  set (tail := Seq (One (Lit hyphen)) (Group 2 (Plus (Class title_class)))).
  set (k := fun (s1 : jsstring) (c1 : captures) =>
              rmatch tail s1 (<[1%nat := take (length s - length s1) s]> c1) finish).
  change (rmatch (Seq (Group 1 (Plus (Class title_class))) tail) s ∅ finish)
    with (rmatch (Plus (Class title_class)) s ∅ k).
  destruct s as [|c s]; [done|].
  change (rmatch (Plus (Class title_class)) (c :: s) ∅ k)
    with (if title_class c then more (Class title_class) s ∅ k else None).
  destruct (title_class c); [|done].
  apply more_none. intros t Ht. unfold k. apply (hyphen_missing s); [set_solver|done].
Qed.

Lemma exec_no_hyphen s : hyphen ∉ s -> exec TITLE_REGEX s = None.
Proof.
  induction s as [|c s IH]; intros Hs.
  - reflexivity.
  - cbn [exec]. rewrite match_here_no_hyphen by done. apply IH. set_solver.
Qed.

End TitlePattern.

(** ** The pre-filled tags and the questions *)

Section Metadata.

Implicit Types (l r t : jsstring) (info : VideoInfo).

Lemma guessed_split l r :
  l <> [] -> r <> [] ->
  Forall (fun c => title_class c = true) l ->
  Forall (fun c => title_class c = true) r ->
  hyphen ∉ r ->
  prop (guessed {| title := l ++ hyphen :: r |}) "title" = JStr (trim r)
  /\ prop (guessed {| title := l ++ hyphen :: r |}) "artist" = JStr (trim l).
Proof.
  intros. unfold guessed. cbn [title]. rewrite exec_split by done.
  unfold prop, group. split; reflexivity.
Qed.

Lemma guessed_split_last l c r :
  l <> [] ->
  Forall (fun c => title_class c = true) l ->
  Forall (fun c => title_class c = true) (c :: r) ->
  hyphen_only_last (c :: r) = true ->
  prop (guessed {| title := l ++ hyphen :: c :: r |}) "title" = JStr (trim (c :: r))
  /\ prop (guessed {| title := l ++ hyphen :: c :: r |}) "artist" = JStr (trim l).
Proof.
  intros. unfold guessed. cbn [title]. rewrite exec_split_last by done.
  unfold prop, group. split; reflexivity.
Qed.

Lemma guessed_whole t :
  hyphen ∉ t ->
  prop (guessed {| title := t |}) "title" = JStr t
  /\ prop (guessed {| title := t |}) "artist" = JNull.
Proof.
  intros. unfold guessed. cbn [title]. rewrite exec_no_hyphen by done.
  split; reflexivity.
Qed.

Lemma asked_processMetadata ask info :
  asked ask (processMetadata info)
  = [ ("Title: ", {| required := true; default := prop (guessed info) "title" |});
      ("Artist: ", {| required := true; default := prop (guessed info) "artist" |});
      ("Album: ", {| required := true; default := JNull |});
      ("Genre: ", no_options);
      ("Year: ", no_options) ].
Proof.
  unfold processMetadata. cbn [asked]. do 2 f_equal.
  unfold prop. by rewrite lookup_insert_ne.
Qed.

End Metadata.

(** ** What a required prompt returns *)

Section Prompts.

Lemma prompt_spec_required o lines v rest :
  required o = true -> prompt_spec o lines = Some (v, rest) -> truthy v = true.
Proof.
  intros Hreq. induction lines as [|line lines IH]; cbn [prompt_spec]; [done|].
  destruct (truthy (JStr line)) eqn:Hline.
  { intros [= <- _]. done. }
  destruct (truthy (default o)) eqn:Hdef.
  { intros [= <- _]. done. }
  rewrite Hreq. exact IH.
Qed.

Lemma prompt_spec_blank_again o lines :
  required o = true -> truthy (default o) = false ->
  prompt_spec o ([] :: lines) = prompt_spec o lines.
Proof. intros Hreq Hdef. cbn. by rewrite Hdef, Hreq. Qed.

Lemma run_prompts_processMetadata info lines meta rest :
  run_prompts (processMetadata info) lines = Some (meta, rest) ->
  exists v1 v2 v3 v4 v5,
    meta = <["date" := v5]> (<["genre" := v4]> (<["album" := v3]>
             (<["artist" := v2]> (<["title" := v1]> (guessed info)))))
    /\ truthy v1 = true /\ truthy v2 = true /\ truthy v3 = true.
Proof.
  unfold processMetadata. cbn [run_prompts]. intros H.
  repeat match type of H with
         | context [prompt_spec ?o ?ls] =>
             let E := fresh "E" in
             destruct (prompt_spec o ls) as [[? ?]|] eqn:E; [cbn [run_prompts] in H|discriminate]
         end.
  injection H as <- <-.
  do 5 eexists. split; [reflexivity|].
  repeat split; eapply prompt_spec_required; try eassumption; reflexivity.
Qed.

End Prompts.

(** ** Claims about the metadata stage *)

(** C8. A title of the form left, hyphen, right, where both parts are
    non-empty, contain no hyphen and consist of characters of the class of
    the pattern, offers the trimmed right part as default title and the
    trimmed left part as default artist; a title without hyphen offers
    the whole title as default title and no default artist.  The defaults
    are those of the first two questions, whatever the answers. *)
Theorem default_tags_from_title :
  (forall l r : jsstring,
      l <> [] -> r <> [] ->
      Forall (fun c => title_class c = true) l ->
      Forall (fun c => title_class c = true) r ->
      hyphen ∉ l -> hyphen ∉ r ->
      forall ask,
        take 2 (asked ask (processMetadata {| title := l ++ hyphen :: r |}))
        = [ ("Title: ", {| required := true; default := JStr (trim r) |});
            ("Artist: ", {| required := true; default := JStr (trim l) |}) ])
  /\ (forall t : jsstring,
         hyphen ∉ t ->
         forall ask,
           take 2 (asked ask (processMetadata {| title := t |}))
           = [ ("Title: ", {| required := true; default := JStr t |});
               ("Artist: ", {| required := true; default := JNull |}) ])
  /\ (forall ask,
         take 2 (asked ask (processMetadata {| title := js "Artist - Title" |}))
         = [ ("Title: ", {| required := true; default := JStr (js "Title") |});
             ("Artist: ", {| required := true; default := JStr (js "Artist") |}) ]).
Proof.
  split; [|split].
  - intros l r Hl Hr Cl Cr _ Hh ask. rewrite asked_processMetadata. cbn [take].
    destruct (guessed_split l r) as [-> ->]; done.
  - intros t Ht ask. rewrite asked_processMetadata. cbn [take].
    destruct (guessed_whole t) as [-> ->]; done.
  - intros ask. rewrite asked_processMetadata. reflexivity.
Qed.

Lemma default_tags_from_title_witness :
  take 2 (asked (fun _ _ => JNull) (processMetadata {| title := js "Queen - Bohemian Rhapsody" |}))
  = [ ("Title: ", {| required := true; default := JStr (js "Bohemian Rhapsody") |});
      ("Artist: ", {| required := true; default := JStr (js "Queen") |}) ]
  /\ take 2 (asked (fun _ _ => JNull) (processMetadata {| title := js "Interlude" |}))
     = [ ("Title: ", {| required := true; default := JStr (js "Interlude") |});
         ("Artist: ", {| required := true; default := JNull |}) ].
Proof.
  split.
  - apply (proj1 default_tags_from_title (js "Queen ") (js " Bohemian Rhapsody"));
      compute_done.
  - apply (proj1 (proj2 default_tags_from_title) (js "Interlude")); compute_done.
Defined.

(** C10, as stated, does not hold: a title with several hyphens is not
    always split at its last hyphen.  A hyphen that nothing follows
    cannot be the hyphen of the pattern, so "A - B -" offers the artist
    "A" and the title "B -", and "A-B-" the artist "A" and the title
    "B-". *)
Lemma a_trailing_hyphen_is_not_the_split :
  (forall ask,
      take 2 (asked ask (processMetadata {| title := js "A - B -" |}))
      = [ ("Title: ", {| required := true; default := JStr (js "B -") |});
          ("Artist: ", {| required := true; default := JStr (js "A") |}) ])
  /\ (forall ask,
         take 2 (asked ask (processMetadata {| title := js "A-B-" |}))
         = [ ("Title: ", {| required := true; default := JStr (js "B-") |});
             ("Artist: ", {| required := true; default := JStr (js "A") |}) ])
  /\ prop (guessed {| title := js "A - B -" |}) "artist" <> JStr (js "A - B").
Proof.
  split; [|split].
  - intros ask. rewrite asked_processMetadata. reflexivity.
  - intros ask. rewrite asked_processMetadata. reflexivity.
  - vm_compute. discriminate.
Qed.

(** C10, amended.  The first group of the pattern is greedy: a title made
    of characters of the class is split at the last of its hyphens that
    some character follows.  The part before that hyphen, which may
    contain hyphens, is offered trimmed as default artist, the part after
    it, in which a hyphen can only be the last character, as default
    title.  "A - B - C" offers the artist "A - B" and the title "C", not
    the artist "A". *)
Theorem split_at_last_followed_hyphen :
  (forall (l : jsstring) (c : jschar) (r : jsstring),
      l <> [] ->
      Forall (fun c => title_class c = true) l ->
      Forall (fun c => title_class c = true) (c :: r) ->
      hyphen_only_last (c :: r) = true ->
      forall ask,
        take 2 (asked ask (processMetadata {| title := l ++ hyphen :: c :: r |}))
        = [ ("Title: ", {| required := true; default := JStr (trim (c :: r)) |});
            ("Artist: ", {| required := true; default := JStr (trim l) |}) ])
  /\ (forall ask,
         take 2 (asked ask (processMetadata {| title := js "A - B - C" |}))
         = [ ("Title: ", {| required := true; default := JStr (js "C") |});
             ("Artist: ", {| required := true; default := JStr (js "A - B") |}) ])
  /\ prop (guessed {| title := js "A - B - C" |}) "artist" <> JStr (js "A").
Proof.
  split; [|split].
  - intros l c r Hl Cl Cr Hh ask. rewrite asked_processMetadata. cbn [take].
    destruct (guessed_split_last l c r) as [-> ->]; done.
  - intros ask. rewrite asked_processMetadata. reflexivity.
  - vm_compute. discriminate.
Qed.

Lemma split_at_last_followed_hyphen_witness :
  take 2 (asked (fun _ _ => JNull) (processMetadata {| title := js "Jay-Z - 99 Problems -" |}))
  = [ ("Title: ", {| required := true; default := JStr (js "99 Problems -") |});
      ("Artist: ", {| required := true; default := JStr (js "Jay-Z") |}) ].
Proof.
  apply (proj1 split_at_last_followed_hyphen (js "Jay-Z ") 32%N (js "99 Problems -"));
    compute_done.
Defined.

Ltac read_prop :=
  unfold prop; repeat (rewrite lookup_insert_ne by done); rewrite lookup_insert_eq.

(** C3, as stated, does not hold: the album is asked with
    [required: true] and without default, so a blank answer is asked
    again until the input ends; no run leaves the album blank. *)
Lemma album_cannot_be_left_blank :
  run_prompts (processMetadata {| title := js "Artist - Title" |}) [[]; []; []; []; []] = None
  /\ ~ (exists lines meta rest,
           run_prompts (processMetadata {| title := js "Artist - Title" |}) lines
           = Some (meta, rest)
           /\ truthy (prop meta "album") = false).
Proof.
  split; [reflexivity|].
  intros (lines & meta & rest & Hrun & Hblank).
  apply run_prompts_processMetadata in Hrun as (v1 & v2 & v3 & v4 & v5 & -> & _ & _ & H3).
  revert Hblank. read_prop. cbn. by rewrite H3.
Qed.

(** C3, amended.  The questions are Title, Artist, Album, Genre and Year,
    in this order, whatever the answers; the first three are required,
    the last two are not.  With prompts that behave as the specification
    says, every completed run has a non-empty title, artist and album,
    and genre and year can both be left blank. *)
Theorem required_and_optional_fields :
  (forall info ask,
      map (fun q => (q.1, required q.2)) (asked ask (processMetadata info))
      = [ ("Title: ", true); ("Artist: ", true); ("Album: ", true);
          ("Genre: ", false); ("Year: ", false) ])
  /\ (forall info lines meta rest,
         run_prompts (processMetadata info) lines = Some (meta, rest) ->
         truthy (prop meta "title") = true
         /\ truthy (prop meta "artist") = true
         /\ truthy (prop meta "album") = true)
  /\ (forall info, exists lines meta rest,
         run_prompts (processMetadata info) lines = Some (meta, rest)
         /\ prop meta "genre" = JStr [] /\ prop meta "date" = JStr []).
Proof.
  split; [|split].
  - intros info ask. by rewrite asked_processMetadata.
  - intros info lines meta rest Hrun.
    apply run_prompts_processMetadata in Hrun as (v1 & v2 & v3 & v4 & v5 & -> & H1 & H2 & H3).
    repeat split; read_prop; done.
  - intros info. exists [js "t"; js "a"; js "b"; []; []]. do 2 eexists.
    split; [reflexivity|]. split; read_prop; done.
Qed.

Lemma required_and_optional_fields_witness :
  run_prompts (processMetadata {| title := js "Artist - Title" |}) [[]; []; js "Album"; []; []]
  = Some (answer_with demo_answers (processMetadata {| title := js "Artist - Title" |}), [])
  /\ truthy (prop (answer_with demo_answers (processMetadata {| title := js "Artist - Title" |}))
               "title") = true
  /\ truthy (prop (answer_with demo_answers (processMetadata {| title := js "Artist - Title" |}))
               "artist") = true
  /\ truthy (prop (answer_with demo_answers (processMetadata {| title := js "Artist - Title" |}))
               "album") = true.
Proof.
  split; [vm_compute; reflexivity|].
  apply (proj1 (proj2 required_and_optional_fields)
           {| title := js "Artist - Title" |} [[]; []; js "Album"; []; []] _ []).
  vm_compute; reflexivity.
Defined.

Lemma lines_processMetadata ask info :
  lines ask (processMetadata info) = ["Enter song metadata:"].
Proof. reflexivity. Qed.

(** What the callback of the conversion promise hands to the tag writer:
    the record as the prompts left it. *)
Lemma convert_then_writes ask typing now s info :
  videoMetadata s = Some info ->
  exists s',
    convert_then ask typing now s = Running s'
    /\ written_tags (out s')
       = written_tags (out s) ++ [answer_with ask (processMetadata info)].
Proof.
  intros Hinfo. unfold convert_then. cbn [videoMetadata set_endTime]. rewrite Hinfo.
  eexists. split; [reflexivity|].
  rewrite lines_processMetadata.
  cbn [out say set_out map]. unfold written_tags. rewrite !omap_app. cbn [omap].
  by rewrite !app_nil_r.
Qed.

Lemma answered_fields ask info :
  let metadata := answer_with ask (processMetadata info) in
  metadata !! "title"
  = Some (ask "Title: " {| required := true; default := prop (guessed info) "title" |})
  /\ metadata !! "album" = Some (ask "Album: " {| required := true; default := JNull |})
  /\ metadata !! "genre" = Some (ask "Genre: " no_options)
  /\ metadata !! "date" = Some (ask "Year: " no_options).
Proof.
  cbn. repeat split; repeat (rewrite lookup_insert_ne by done); by rewrite lookup_insert_eq.
Qed.

(** C2.  The claim is that fields whose final value is empty are left
    out of the tag set handed to the writer.  The script computes the
    filtered record and then hands over the unfiltered one: in the run
    where the user leaves genre and year blank, the writer receives both
    with the empty string, while the filtered record, which is dropped,
    has neither. *)
Theorem blank_fields_reach_the_tag_writer :
  exists metadata,
    written_tags (printed_by (demo_run (demo_fetch ++ demo_convert ++ demo_tagging)))
    = [metadata]
    /\ metadata !! "genre" = Some (JStr [])
    /\ metadata !! "date" = Some (JStr [])
    /\ filter_object metadata truthy !! "genre" = None
    /\ filter_object metadata truthy !! "date" = None
    /\ filter_object metadata truthy !! "title" = Some (JStr (js "Title")).
Proof.
  exists (answer_with demo_answers (processMetadata {| title := js "Artist - Title" |})).
  destruct (answered_fields demo_answers {| title := js "Artist - Title" |})
    as (Htitle & _ & Hgenre & Hdate).
  cbv zeta in Htitle, Hgenre, Hdate.
  assert (Hguess : prop (guessed {| title := js "Artist - Title" |}) "title"
                   = JStr (js "Title")) by (vm_compute; reflexivity).
  rewrite Hguess in Htitle.
  split; [vm_compute; reflexivity|].
  split; [exact Hgenre|]. split; [exact Hdate|].
  unfold filter_object. split; [|split].
  - apply map_lookup_filter_None. right. intros x Hx. rewrite Hgenre in Hx.
    injection Hx as <-. discriminate.
  - apply map_lookup_filter_None. right. intros x Hx. rewrite Hdate in Hx.
    injection Hx as <-. discriminate.
  - apply map_lookup_filter_Some. split; [exact Htitle|reflexivity].
Qed.

(** ** The download *)

Section Download.

Variable prettyBytes : number -> option jsstring.

Implicit Types (s : State) (chunk : Buffer) (chunks : list (Q * Buffer)).

Lemma Buffer_concat_pair (d c : Buffer) :
  Buffer_concat [d; c] (length d + length c) = d ++ c.
Proof.
  unfold Buffer_concat. cbn [concat]. rewrite app_nil_r, length_app, Nat.sub_diag.
  cbn [replicate]. rewrite app_nil_r. apply take_ge. by rewrite length_app.
Qed.

(** The buffer alone, as line 88 updates it. *)
Lemma buffer_fold (d : Buffer) (l : list Buffer) :
  foldl (fun d c => Buffer_concat [d; c] (length d + length c)) d l = d ++ concat l.
Proof.
  revert d. induction l as [|c l IH]; intros d; cbn [foldl concat].
  - by rewrite app_nil_r.
  - by rewrite IH, Buffer_concat_pair, <- app_assoc.
Qed.

(** One chunk, when the three texts can be produced. *)
Lemma on_data_running chunk now s received expected speed :
  prettyBytes (of_nat (length (data s ++ chunk))) = Some received ->
  prettyBytes (totalSize s) = Some expected ->
  prettyBytes (Fin (dlRate (length (data s ++ chunk)) (startTime s) now)) = Some speed ->
  on_data prettyBytes chunk now s
  = Running
      (set_downloadProgress
         (tick (Some (of_nat (length chunk)))
            [("amount", received ++ js "/" ++ expected); ("rate", speed ++ js "/s")]
            (downloadProgress s))
         (set_data (data s ++ chunk) s)).
Proof.
  intros Hr He Hs. unfold on_data. rewrite Buffer_concat_pair.
  cbn [set_data data totalSize startTime out downloadProgress].
  by rewrite Hr, He, Hs.
Qed.

(** The formatter accepts every finite number. *)
Hypothesis prettyBytes_finite : forall q, is_Some (prettyBytes (Fin q)).

Lemma on_data_finite chunk now s n :
  totalSize s = Fin n ->
  exists amount speed,
    prettyBytes (Fin (dlRate (length (data s ++ chunk)) (startTime s) now)) = Some speed
    /\ on_data prettyBytes chunk now s
       = Running
           (set_downloadProgress
              (tick (Some (of_nat (length chunk)))
                 [("amount", amount); ("rate", speed ++ js "/s")]
                 (downloadProgress s))
              (set_data (data s ++ chunk) s)).
Proof.
  intros Hn.
  destruct (prettyBytes_finite (inject_Z (Z.of_nat (length (data s ++ chunk)))))
    as [received Hr].
  destruct (prettyBytes_finite n) as [expected He].
  destruct (prettyBytes_finite (dlRate (length (data s ++ chunk)) (startTime s) now))
    as [speed Hs].
  exists (received ++ js "/" ++ expected), speed. split; [done|].
  apply on_data_running; [done| |done]. by rewrite Hn.
Qed.

(** Chunk after chunk: the buffer grows by the chunks in their order of
    arrival, the start time and the expected size stay. *)
Lemma run_chunks chunks s n :
  totalSize s = Fin n ->
  exists s',
    run prettyBytes (chunk_events chunks) (Running s) = Running s'
    /\ data s' = data s ++ concat (map snd chunks)
    /\ startTime s' = startTime s
    /\ totalSize s' = totalSize s
    /\ length (ticks (downloadProgress s'))
       = (length (ticks (downloadProgress s)) + length chunks)%nat.
Proof.
  revert s. induction chunks as [|[now chunk] chunks IH]; intros s Hn.
  - exists s. cbn. rewrite app_nil_r, Nat.add_0_r. done.
  - destruct (on_data_finite chunk now s n Hn) as (amount & speed & _ & Hstep).
    cbn [chunk_events map run fst snd step]. rewrite Hstep.
    match goal with |- context [Running ?next] => set (s1 := next) end.
    destruct (IH s1) as (s' & Hrun & Hdata & Hstart & Hsize & Hticks); [exact Hn|].
    exists s'. split; [exact Hrun|]. cbn in Hdata, Hstart, Hsize, Hticks.
    rewrite Hdata, Hstart, Hsize, Hticks. cbn [concat map snd].
    rewrite <- app_assoc, length_app. cbn. repeat split; try done. lia.
Qed.

End Download.

(** C5.  The buffer after any sequence of chunks is the buffer before
    followed by the chunks in their order of arrival, so from the empty
    buffer of the start it is their concatenation and its length is the
    sum of their lengths.  The handler reaches this state whenever the
    byte formatter accepts finite numbers and the expected size is one. *)
Theorem buffer_is_the_concatenation_of_the_chunks :
  (forall l : list Buffer,
      let final := foldl (fun d c => Buffer_concat [d; c] (length d + length c)) [] l in
      final = concat l /\ length final = sum_list (map length l))
  /\ (forall prettyBytes,
         (forall q, is_Some (prettyBytes (Fin q))) ->
         forall s n chunks,
           totalSize s = Fin n ->
           exists s',
             run prettyBytes (chunk_events chunks) (Running s) = Running s'
             /\ data s' = data s ++ concat (map snd chunks)
             /\ length (data s')
                = (length (data s) + sum_list (map length (map snd chunks)))%nat).
Proof.
  assert (Hlen : forall l : list Buffer, length (concat l) = sum_list (map length l)).
  { induction l as [|c l IH]; [done|]. cbn. rewrite length_app, IH. done. }
  split.
  - intros l. cbn zeta. rewrite buffer_fold. cbn [app]. split; [done|apply Hlen].
  - intros pb Hpb s n chunks Hn.
    destruct (run_chunks pb Hpb chunks s n Hn) as (s' & Hrun & Hdata & _).
    exists s'. split; [done|]. split; [done|].
    by rewrite Hdata, length_app, Hlen.
Qed.

Lemma prettyBytes_guarded_finite q : is_Some (prettyBytes_guarded (Fin q)).
Proof. by eexists. Qed.

Lemma buffer_is_the_concatenation_of_the_chunks_witness :
  exists s',
    run prettyBytes_guarded (chunk_events [(1%Q, [x01; x02]); (2%Q, [x03])])
      (Running (demo_state (take 2 demo_fetch)))
    = Running s'
    /\ data s'
       = data (demo_state (take 2 demo_fetch))
         ++ concat (map snd [(1%Q, [x01; x02]); (2%Q, [x03])])
    /\ length (data s')
       = (length (data (demo_state (take 2 demo_fetch)))
          + sum_list (map length (map snd [(1%Q, [x01; x02]); (2%Q, [x03 : byte])])))%nat.
Proof.
  apply (proj2 buffer_is_the_concatenation_of_the_chunks prettyBytes_guarded
           prettyBytes_guarded_finite (demo_state (take 2 demo_fetch)) 3%Q).
  vm_compute. reflexivity.
Defined.

(** C6.  At every chunk the rate handed to the formatter is the number
    of bytes received so far, this chunk included, divided by the larger
    of the elapsed seconds and 1; the divisor is at least 1, hence not
    zero.  Stated for a formatter that accepts finite numbers and a known
    expected size, where the handler returns. *)
Theorem download_rate_is_bytes_over_elapsed :
  forall prettyBytes,
    (forall q, is_Some (prettyBytes (Fin q))) ->
    forall s n chunks now chunk,
      totalSize s = Fin n ->
      let bytes := (length (data s) + received chunks + length chunk)%nat in
      let elapsed := Qmax (now - startTime s) 1 in
      exists s1 s2 amount speed,
        run prettyBytes (chunk_events chunks) (Running s) = Running s1
        /\ step prettyBytes now (YtData chunk) s1 = Running s2
        /\ prettyBytes (Fin (inject_Z (Z.of_nat bytes) / elapsed)) = Some speed
        /\ ticks (downloadProgress s2)
           = ticks (downloadProgress s1)
             ++ [ {| len := Some (of_nat (length chunk));
                     tokens := [("amount", amount); ("rate", speed ++ js "/s")] |} ]
        /\ (1 <= elapsed)%Q
        /\ ~ (elapsed == 0)%Q.
Proof.
  intros pb Hpb s n chunks now chunk Hn bytes elapsed.
  destruct (run_chunks pb Hpb chunks s n Hn) as (s1 & Hrun & Hdata & Hstart & Hsize & _).
  destruct (on_data_finite pb Hpb chunk now s1 n) as (amount & speed & Hspeed & Hstep).
  { by rewrite Hsize. }
  assert (Hle : (1 <= elapsed)%Q) by apply Q.le_max_r.
  exists s1. eexists. exists amount, speed.
  split; [exact Hrun|]. split; [exact Hstep|].
  split; [|split; [reflexivity|split; [exact Hle|]]].
  - rewrite <- Hspeed. unfold dlRate, bytes, elapsed, received.
    by rewrite Hdata, Hstart, !length_app.
  - intros Hzero. rewrite Hzero in Hle. by apply Hle.
Qed.

Lemma download_rate_is_bytes_over_elapsed_witness :
  exists s1 s2 amount speed,
    run prettyBytes_guarded (chunk_events [(1%Q, [x01; x02])])
      (Running (demo_state (take 2 demo_fetch))) = Running s1
    /\ step prettyBytes_guarded (5 # 2) (YtData [x03; x04; x05]) s1 = Running s2
    /\ prettyBytes_guarded
         (Fin (inject_Z (Z.of_nat (length (data (demo_state (take 2 demo_fetch)))
                                   + received [(1%Q, [x01; x02])]
                                   + length [x03; x04; x05 : byte]))
               / Qmax ((5 # 2) - startTime (demo_state (take 2 demo_fetch))) 1))
       = Some speed
    /\ ticks (downloadProgress s2)
       = ticks (downloadProgress s1)
         ++ [ {| len := Some (of_nat (length [x03; x04; x05 : byte]));
                 tokens := [("amount", amount); ("rate", speed ++ js "/s")] |} ]
    /\ (1 <= Qmax ((5 # 2) - startTime (demo_state (take 2 demo_fetch))) 1)%Q
    /\ ~ (Qmax ((5 # 2) - startTime (demo_state (take 2 demo_fetch))) 1 == 0)%Q.
Proof.
  apply (download_rate_is_bytes_over_elapsed prettyBytes_guarded prettyBytes_guarded_finite
           (demo_state (take 2 demo_fetch)) 3%Q).
  vm_compute. reflexivity.
Defined.

(** C7.  The claim is that progress keeps advancing when the response
    has no content-length header.  The response handler then stores
    [parseInt(undefined)], which is NaN, as the expected size and as the
    total of the new bar, and the chunk handler formats the expected size
    before it calls [tick].  With a byte formatter that throws on NaN, as
    pretty-bytes does, every chunk handler ends in an uncaught exception
    and the bar receives no call. *)
Theorem absent_content_length_breaks_progress :
  forall prettyBytes,
    prettyBytes NaN = None ->
    forall s t, exists s1,
      step prettyBytes t (YtResponse None) s = Running s1
      /\ totalSize s1 = NaN
      /\ total (downloadProgress s1) = NaN
      /\ ticks (downloadProgress s1) = []
      /\ forall now chunk,
           step prettyBytes now (YtData chunk) s1 = Uncaught (out s1)
           /\ exit_status (step prettyBytes now (YtData chunk) s1) = Some 1.
Proof.
  intros pb Hnan s t. eexists. split; [reflexivity|].
  repeat split; cbn [step]; unfold on_data;
    cbn [set_data data totalSize startTime out downloadProgress set_downloadProgress
         set_totalSize parseInt];
    destruct (pb (of_nat _)); rewrite ?Hnan; reflexivity.
Qed.

Lemma absent_content_length_breaks_progress_witness :
  prettyBytes_guarded NaN = None
  /\ exists s1,
      step prettyBytes_guarded 1 (YtResponse None) (demo_state (take 1 demo_fetch)) = Running s1
      /\ totalSize s1 = NaN
      /\ total (downloadProgress s1) = NaN
      /\ ticks (downloadProgress s1) = []
      /\ forall now chunk,
           step prettyBytes_guarded now (YtData chunk) s1 = Uncaught (out s1)
           /\ exit_status (step prettyBytes_guarded now (YtData chunk) s1) = Some 1.
Proof.
  split; [reflexivity|].
  exact (absent_content_length_breaks_progress prettyBytes_guarded eq_refl
           (demo_state (take 1 demo_fetch)) 1%Q).
Defined.

(** ** The conversion *)

Section Conversion.

Variable prettyBytes : number -> option jsstring.

Lemma sub_of_Z a b : sub (of_Z a) (of_Z b) = of_Z (a - b).
Proof.
  unfold sub, of_Z, Qminus, Qplus, Qopp, inject_Z. cbn. f_equal. f_equal. lia.
Qed.

Lemma tick_lengths_tick l tk b : tick_lengths (tick l tk b) = tick_lengths b ++ [l].
Proof. unfold tick_lengths, tick. cbn. by rewrite map_app. Qed.

(** Report after report: each one ticks by the ceiling of its percentage
    minus the value kept in [last], and keeps the new ceiling there. *)
Lemma run_progress reports :
  forall s bar previous,
    converting s = true ->
    convertProgress s = Some bar ->
    last s = of_Z previous ->
    exists s' bar',
      run prettyBytes (progress_events reports) (Running s) = Running s'
      /\ convertProgress s' = Some bar'
      /\ tick_lengths bar'
         = tick_lengths bar
           ++ map (fun d => Some (of_Z d))
                (ceiling_deltas previous (map (fun r => r.1.2) reports)).
Proof.
  induction reports as [|[[now p] kbps] reports IH]; intros s bar previous Hconv Hbar Hlast.
  - exists s, bar. cbn. by rewrite app_nil_r.
  - cbn [progress_events map run step fst snd]. rewrite Hconv.
    unfold ffmpeg_progress. rewrite Hlast. cbn [ceil set_last convertProgress].
    rewrite sub_of_Z, Hbar. cbn [option_map].
    match goal with |- context [Running ?next] => set (s1 := next) end.
    destruct (IH s1 (tick (Some (of_Z (Qceiling p - previous)))
                       [("rate", kbps ++ js "kbps")] bar) (Qceiling p))
      as (s' & bar' & Hrun & Hbar' & Hticks); [exact Hconv|reflexivity|reflexivity|].
    exists s', bar'. split; [exact Hrun|]. split; [exact Hbar'|].
    rewrite Hticks, tick_lengths_tick, <- app_assoc. reflexivity.
Qed.

Lemma ceiling_deltas_nonnegative percents :
  forall previous,
    cumulative previous percents ->
    Forall (fun d => 0 <= d) (ceiling_deltas (Qceiling previous) percents).
Proof.
  induction percents as [|p percents IH]; intros previous; cbn [cumulative ceiling_deltas].
  - constructor.
  - intros [Hle Hrest]. constructor; [|by apply IH].
    apply Qceiling_resp_le in Hle. lia.
Qed.

Lemma ceiling_deltas_sum percents :
  forall previous p,
    foldr Z.add 0 (ceiling_deltas previous (percents ++ [p])) = Qceiling p - previous.
Proof.
  induction percents as [|q percents IH]; intros previous p; cbn [ceiling_deltas app foldr].
  - lia.
  - rewrite IH. lia.
Qed.

End Conversion.

(** C4.  During a conversion the lengths passed to [tick] are, report by
    report, the ceiling of the reported percentage minus the ceiling kept
    from the report before, starting from 0.  For percentages that start
    at or above 0 and never go down no length is negative, and the
    lengths add up to the ceiling of the latest percentage, so no point
    is counted twice.  The reports 0, 5, 5, 12, 12, 12, 100 give the
    lengths 0, 5, 0, 7, 0, 0, 88. *)
Theorem progress_ticks_are_ceiling_deltas :
  forall prettyBytes s bar (reports : list (Q * Q * jsstring)),
    converting s = true ->
    convertProgress s = Some bar ->
    last s = of_Z 0 ->
    (exists s' bar',
        run prettyBytes (progress_events reports) (Running s) = Running s'
        /\ convertProgress s' = Some bar'
        /\ tick_lengths bar'
           = tick_lengths bar
             ++ map (fun d => Some (of_Z d))
                  (ceiling_deltas 0 (map (fun r => r.1.2) reports)))
    /\ (cumulative 0 (map (fun r => r.1.2) reports) ->
        Forall (fun d => 0 <= d) (ceiling_deltas 0 (map (fun r => r.1.2) reports)))
    /\ (forall front p,
           map (fun r => r.1.2) reports = front ++ [p] ->
           foldr Z.add 0 (ceiling_deltas 0 (map (fun r => r.1.2) reports)) = Qceiling p)
    /\ ceiling_deltas 0 [0; 5; 5; 12; 12; 12; 100]%Q = [0; 5; 0; 7; 0; 0; 88].
Proof.
  intros pb s bar reports Hconv Hbar Hlast. split; [|split; [|split]].
  - by apply run_progress.
  - apply (ceiling_deltas_nonnegative _ 0%Q).
  - intros front p ->. rewrite ceiling_deltas_sum. lia.
  - reflexivity.
Qed.

Lemma progress_ticks_are_ceiling_deltas_witness :
  exists s' bar',
    run prettyBytes_guarded
      (progress_events
         [ (3, 0, js "128"); (4, 5, js "128"); (5, 5, js "128"); (6, 12, js "128");
           (7, 12, js "128"); (8, 12, js "128"); (9, 100, js "128") ]%Q)
      (Running (demo_state demo_fetch)) = Running s'
    /\ convertProgress s' = Some bar'
    /\ tick_lengths bar'
       = map (fun d => Some (of_Z d)) [0; 5; 0; 7; 0; 0; 88].
Proof.
  apply (proj1 (progress_ticks_are_ceiling_deltas prettyBytes_guarded
                  (demo_state demo_fetch)
                  (new_ProgressBar CONVERT_PROGRESS_BAR_FORMAT (of_Z 100))
                  [ (3, 0, js "128"); (4, 5, js "128"); (5, 5, js "128"); (6, 12, js "128");
                    (7, 12, js "128"); (8, 12, js "128"); (9, 100, js "128") ]%Q
                  eq_refl eq_refl eq_refl)).
Defined.

(** Without the order on the percentages a length can be negative. *)
Example a_falling_percentage_ticks_backwards :
  ceiling_deltas 0 [5; 3]%Q = [5; -2].
Proof. reflexivity. Qed.

(** ** The report and the exit status *)

(** C9, as stated, does not hold.  In the demo run the conversion ends at
    second 10 and the tags are written at second 50; the report shows a
    runtime of 10 seconds, which ends before the tagging does. *)
Lemma runtime_excludes_the_tagging :
  printed_runtime (printed_by (demo_run (demo_fetch ++ demo_convert ++ demo_tagging)))
  = [10%Q]
  /\ startTime (demo_state []) = 0%Q
  /\ demo_tagging !! 1%nat = Some (50%Q, TagsWritten false)
  /\ (10 < 50 - startTime (demo_state []))%Q.
Proof. repeat split; vm_compute; reflexivity. Qed.

(** The handlers, the setters and the projections unfolded, nothing
    else. *)
Ltac script_nf :=
  lazy beta iota zeta delta
    [run step on_info on_response on_end download_then ffmpeg_end convert_then
     tags_written metadata_then probed converting say warning resolve
     program data videoMetadata videoFileName musicFileName totalSize startTime
     endTime downloadProgress convertProgress last downloadCompleted
     convertCompleted metadataCompleted reported out
     set_data set_videoMetadata set_videoFileName set_musicFileName set_totalSize
     set_endTime set_downloadProgress set_convertProgress set_last
     set_downloadCompleted set_convertCompleted set_metadataCompleted
     set_reported set_out intermediate lowQuality].

(** C9, amended.  The end timestamp is the clock reading at the start of
    the callback of the conversion promise.  The prompts come after it:
    when the user types for [typing] seconds they return at that reading
    plus [typing], and only then are the tags handed to the writer.  The
    runtime on the report is the reading at the start of the callback
    minus the start timestamp, whatever the typing time and whenever the
    later events happen; so it leaves out the time spent in the prompts. *)
Theorem runtime_ends_when_the_conversion_completes :
  forall prettyBytes s info ask typing t1 t2 t3 t4 err d,
    convertCompleted s = Resolved ->
    metadataCompleted s = Pending ->
    videoMetadata s = Some info ->
    (exists s1,
        step prettyBytes t1 (ConvertThen ask typing) s = Running s1
        /\ endTime s1 = t1
        /\ out s1
           = out s
             ++ [ Console "Enter song metadata:";
                  Prompted (t1 + typing);
                  WriteTags (from_option id [] (musicFileName s))
                    (answer_with ask (processMetadata info)) ])
    /\ printed_runtime
         (printed_by
            (run prettyBytes
               [ (t1, ConvertThen ask typing); (t2, TagsWritten err); (t3, MetadataThen);
                 (t4, Probed (Some d)) ]
               (Running s)))
       = printed_runtime (out s) ++ [(t1 - startTime s)%Q]
    /\ ((0 < typing)%Q -> (t1 - startTime s < (t1 + typing) - startTime s)%Q).
Proof.
  intros pb s info ask typing t1 t2 t3 t4 err d Hconv Hmeta Hinfo.
  destruct s as [prog dat vm vf mf ts st et dp cp la dc cc mc rep o].
  cbn in Hconv, Hmeta, Hinfo. subst.
  split; [|split].
  - eexists. split; [|split].
    + cbn [step convertCompleted]. unfold convert_then.
      cbn [videoMetadata set_endTime set_convertCompleted]. reflexivity.
    + reflexivity.
    + script_nf. rewrite lines_processMetadata. cbn [map].
      rewrite <- !app_assoc. reflexivity.
  - cbn [run step convertCompleted]. unfold convert_then.
    cbn [videoMetadata set_endTime set_convertCompleted].
    rewrite lines_processMetadata.
    set (metadata := answer_with ask (processMetadata info)). clearbody metadata.
    destruct d as [name sz dur rate]. unfold printed_runtime.
    lazy -[app omap Qminus Qplus].
    destruct err; destruct (pb sz); try destruct (pb rate);
      lazy -[app omap Qminus Qplus]; rewrite ?omap_app; cbn [omap]; rewrite ?app_nil_r;
      reflexivity.
  - intros Htyping. cbn [startTime].
    apply Qplus_lt_l. rewrite <- (Qplus_0_r t1) at 1. by apply Qplus_lt_r.
Qed.

Lemma runtime_ends_when_the_conversion_completes_witness :
  (exists s1,
      step prettyBytes_guarded 10 (ConvertThen demo_answers 40)
        (demo_state (demo_fetch ++ demo_convert)) = Running s1
      /\ endTime s1 = 10%Q
      /\ out s1
         = out (demo_state (demo_fetch ++ demo_convert))
           ++ [ Console "Enter song metadata:";
                Prompted (10 + 40);
                WriteTags
                  (from_option id [] (musicFileName (demo_state (demo_fetch ++ demo_convert))))
                  (answer_with demo_answers (processMetadata {| title := js "Artist - Title" |})) ])
  /\ printed_runtime
       (printed_by (run prettyBytes_guarded demo_tagging
                      (Running (demo_state (demo_fetch ++ demo_convert)))))
     = printed_runtime (out (demo_state (demo_fetch ++ demo_convert)))
       ++ [(10 - startTime (demo_state (demo_fetch ++ demo_convert)))%Q]
  /\ ((0 < 40)%Q ->
      (10 - startTime (demo_state (demo_fetch ++ demo_convert))
       < (10 + 40) - startTime (demo_state (demo_fetch ++ demo_convert)))%Q).
Proof.
  apply (runtime_ends_when_the_conversion_completes prettyBytes_guarded
           (demo_state (demo_fetch ++ demo_convert)) {| title := js "Artist - Title" |}
           demo_answers 40 10 50 50 51 false
           {| filename := js "Artist - Title.mp3";
              size := of_Z 3; duration := of_Z 1; bit_rate := of_Z 24 |});
    vm_compute; reflexivity.
Defined.

(** C1, as stated, does not hold: a failed download and a failed
    conversion both leave through [error], with status 25. *)
Lemma download_and_conversion_failures_share_a_status :
  exit_status (demo_run [(1%Q, YtError)]) = Some 25
  /\ exit_status (demo_run (demo_fetch ++ [(5%Q, FfError)])) = Some 25
  /\ exit_status (demo_run [(1%Q, YtError)])
     = exit_status (demo_run (demo_fetch ++ [(5%Q, FfError)])).
Proof. repeat split; vm_compute; reflexivity. Qed.

(** C1, amended.  The status is 55 when the URL argument is missing or
    empty, 25 when the download fails and 25 when the conversion fails,
    and 0 when the report is out; 0, 55 and 25 are distinct, so a caller
    can tell success, a missing argument and a failure at run time apart,
    but not the two failures. *)
Theorem exit_statuses :
  (forall prog t0 t1,
      args prog !! 0%nat = None \/ args prog !! 0%nat = Some [] ->
      exit_status (main prog t0 t1) = Some 55)
  /\ (forall prettyBytes s now,
         exit_status (step prettyBytes now YtError s) = Some 25)
  /\ (forall prettyBytes s now,
         converting s = true ->
         exit_status (step prettyBytes now FfError s) = Some 25)
  /\ (forall s, reported s = true -> exit_status (Running s) = Some 0)
  /\ exit_status (demo_run (demo_fetch ++ demo_convert ++ demo_tagging)) = Some 0
  /\ 0 <> 55 /\ 0 <> 25 /\ 55 <> 25.
Proof.
  split; [|split; [|split; [|split; [|split]]]].
  - intros prog t0 t1 [H|H]; unfold main, jsstring in *; by rewrite H.
  - reflexivity.
  - intros pb s now H. cbn [step]. by rewrite H.
  - intros s H. cbn. by rewrite H.
  - vm_compute. reflexivity.
  - repeat split; lia.
Qed.

Lemma exit_statuses_witness :
  exit_status (main {| args := []; intermediate := false; lowQuality := false |} 0 0) = Some 55
  /\ exit_status (step prettyBytes_guarded 5 FfError (demo_state demo_fetch)) = Some 25
  /\ exit_status (Running (demo_state (demo_fetch ++ demo_convert ++ demo_tagging))) = Some 0.
Proof.
  split; [|split].
  - apply (proj1 exit_statuses). left. reflexivity.
  - apply (proj1 (proj2 (proj2 exit_statuses))). vm_compute. reflexivity.
  - apply (proj1 (proj2 (proj2 (proj2 exit_statuses)))). vm_compute. reflexivity.
Defined.
(** * Further properties of the script *)

(** ** Every match of the title pattern *)

Section TitleMatches.

Implicit Types (s l r t : jsstring) (caps : captures) (k : cont).

(** A greedy repetition that succeeds stopped somewhere: the characters
    before the stop are accepted and the continuation succeeded there. *)
Lemma more_sound a s caps k m :
  more a s caps k = Some m ->
  exists l t, s = l ++ t /\ Forall (fun c => accepts a c = true) l /\ k t caps = Some m.
Proof.
  revert m. induction s as [|c s IH]; intros m; cbn [more].
  - intros H. by exists [], [].
  - destruct (accepts a c) eqn:Hc.
    + destruct (more a s caps k) as [m'|] eqn:Hmore.
      * intros [= <-]. destruct (IH m' eq_refl) as (l & t & -> & Hl & Hk).
        exists (c :: l), t. repeat split; [by constructor|done].
      * intros H. by exists [], (c :: s).
    + intros H. by exists [], (c :: s).
Qed.

Lemma more_total a s caps k :
  (forall t, is_Some (k t caps)) -> is_Some (more a s caps k).
Proof.
  intros Hk. induction s as [|c s IH]; cbn [more]; [done|].
  destruct (accepts a c); [|done]. by destruct IH as [m ->].
Qed.

(** With a continuation that cannot fail the repetition stops only at
    the end of the input or before a character it does not accept. *)
Lemma more_longest a s caps k m :
  (forall t, is_Some (k t caps)) ->
  more a s caps k = Some m ->
  exists l t,
    s = l ++ t /\ Forall (fun c => accepts a c = true) l /\ k t caps = Some m
    /\ match t with [] => True | c :: _ => accepts a c = false end.
Proof.
  intros Hk. revert m. induction s as [|c s IH]; intros m; cbn [more].
  - intros H. by exists [], [].
  - destruct (accepts a c) eqn:Hc.
    + destruct (more_total a s caps k Hk) as [m' Hmore]. rewrite Hmore.
      intros [= <-]. destruct (IH m' Hmore) as (l & t & -> & Hl & Hkt & Hstop).
      exists (c :: l), t. repeat split; [by constructor|done|done].
    + intros H. exists [], (c :: s). by repeat split.
Qed.

Lemma more_complete a l t caps k :
  Forall (fun c => accepts a c = true) l ->
  is_Some (k t caps) -> is_Some (more a (l ++ t) caps k).
Proof.
  intros Hl Hk. induction Hl as [|c l Hc _ IH]; cbn [app more].
  - destruct t as [|c t]; cbn [more]; [done|].
    destruct (accepts a c); [|done]. by destruct (more a t caps k).
  - rewrite Hc. by destruct IH as [m ->].
Qed.

Lemma plus_unfold a s caps k :
  rmatch (Plus a) s caps k
  = match s with
    | c :: rest => if accepts a c then more a rest caps k else None
    | [] => None
    end.
Proof. by destruct s. Qed.

Lemma title_regex_unfold s :
  match_here TITLE_REGEX s
  = rmatch (Plus (Class title_class)) s ∅
      (fun s1 c1 =>
         match s1 with
         | c :: s2 =>
             if (c =? hyphen)%N
             then rmatch (Plus (Class title_class)) s2
                    (<[1%nat := take (length s - length s1) s]> c1)
                    (fun s3 c3 =>
                       Some (<[0%nat := take (length s - length s3) s]>
                               (<[2%nat := take (length s2 - length s3) s2]> c3)))
             else None
         | [] => None
         end).
Proof.
  unfold match_here, TITLE_REGEX. cbn [rmatch]. destruct s as [|c s]; [done|].
  cbn [accepts]. destruct (title_class c); [|done].
  f_equal.
Qed.

(** What a successful match at a fixed position consists of. *)
Lemma match_here_sound s m :
  match_here TITLE_REGEX s = Some m ->
  exists g1 g2 post,
    s = g1 ++ hyphen :: g2 ++ post
    /\ g1 <> [] /\ g2 <> []
    /\ Forall (fun c => title_class c = true) g1
    /\ Forall (fun c => title_class c = true) g2
    /\ match post with [] => True | c :: _ => title_class c = false end
    /\ m = <[0%nat := g1 ++ hyphen :: g2]> (<[2%nat := g2]> (<[1%nat := g1]> ∅)).
Proof.
  rewrite title_regex_unfold, plus_unfold.
  destruct s as [|c0 s0]; [done|]. cbn [accepts].
  destruct (title_class c0) eqn:C0; [|done].
  intros H. apply more_sound in H as (l & t & Hs & Hl & Hk).
  destruct t as [|c t]; [done|].
  destruct (N.eqb_spec c hyphen) as [->|]; [|done].
  rewrite plus_unfold in Hk. destruct t as [|c1 t1]; [done|]. cbn [accepts] in Hk.
  destruct (title_class c1) eqn:C1; [|done].
  apply more_longest in Hk as (l2 & post & -> & Hl2 & Hk & Hstop); [|by eexists].
  injection Hk as <-.
  exists (c0 :: l), (c1 :: l2), post. rewrite Hs.
  repeat split; try done; try (by constructor).
  assert (E1 : take (length (c0 :: l ++ hyphen :: c1 :: l2 ++ post)
                     - length (hyphen :: c1 :: l2 ++ post))
                 (c0 :: l ++ hyphen :: c1 :: l2 ++ post) = c0 :: l)
    by exact (take_consumed (c0 :: l) (hyphen :: c1 :: l2 ++ post)).
  assert (E2 : take (length (c1 :: l2 ++ post) - length post) (c1 :: l2 ++ post)
               = c1 :: l2)
    by exact (take_consumed (c1 :: l2) post).
  assert (E0 : take (length (c0 :: l ++ hyphen :: c1 :: l2 ++ post) - length post)
                 (c0 :: l ++ hyphen :: c1 :: l2 ++ post)
               = (c0 :: l) ++ hyphen :: c1 :: l2).
  { replace (c0 :: l ++ hyphen :: c1 :: l2 ++ post)
      with (((c0 :: l) ++ hyphen :: c1 :: l2) ++ post)
      by (by rewrite <- app_assoc).
    apply take_consumed. }
  f_equal; [exact E0|]. f_equal; [exact E2|]. f_equal. exact E1.
Qed.

Lemma match_here_complete c d post :
  title_class c = true -> title_class d = true ->
  is_Some (match_here TITLE_REGEX (c :: hyphen :: d :: post)).
Proof.
  intros Hc Hd. rewrite title_regex_unfold, plus_unfold. cbn [accepts]. rewrite Hc.
  apply (more_complete _ [] (hyphen :: d :: post)); [constructor|].
  rewrite N.eqb_refl, plus_unfold. cbn [accepts]. rewrite Hd.
  apply more_total. by eexists.
Qed.

(** [exec] returns the match at the first position where there is one. *)
Lemma exec_sound (r : regex) s m :
  exec r s = Some m ->
  exists pre t, s = pre ++ t /\ match_here r t = Some m.
Proof.
  induction s as [|c s IH]; cbn [exec].
  - destruct (match_here r []) eqn:E; [|done]. intros [= <-]. by exists [], [].
  - destruct (match_here r (c :: s)) eqn:E.
    + intros [= <-]. by exists [], (c :: s).
    + intros H. destruct (IH H) as (pre & t & -> & Ht). by exists (c :: pre), t.
Qed.

Lemma exec_complete (r : regex) pre t :
  is_Some (match_here r t) -> is_Some (exec r (pre ++ t)).
Proof.
  intros Ht. induction pre as [|c pre IH]; cbn [app].
  - destruct t; cbn [exec]; by destruct Ht as [m ->].
  - cbn [exec]. by destruct (match_here r (c :: pre ++ t)).
Qed.

End TitleMatches.

(** ** Facts about one event *)

Section Events.

Variable prettyBytes : number -> option jsstring.

Implicit Types (s : State) (e : event) (now : Q).

Ltac reduce_step H :=
  cbn [step on_info on_response on_data on_end on_error download_then ffmpeg_error
       ffmpeg_progress ffmpeg_end convert_then tags_written metadata_then probed
       converting say warning error resolve
       program data videoMetadata videoFileName musicFileName totalSize startTime
       endTime downloadProgress convertProgress last downloadCompleted
       convertCompleted metadataCompleted reported out
       set_data set_videoMetadata set_videoFileName set_musicFileName set_totalSize
       set_endTime set_downloadProgress set_convertProgress set_last
       set_downloadCompleted set_convertCompleted set_metadataCompleted
       set_reported set_out intermediate] in H.

Ltac unfold_step H :=
  reduce_step H;
  unfold on_info, on_response, on_data, on_end, on_error, download_then, ffmpeg_error,
    ffmpeg_progress, ffmpeg_end, convert_then, tags_written, metadata_then, probed,
    error in H;
  reduce_step H.

Ltac split_step H :=
  repeat (unfold_step H;
          match type of H with
          | context [match ?x with _ => _ end] => destruct x eqn:?
          end);
  unfold_step H.

Lemma run_app events1 events2 (o : outcome) :
  run prettyBytes (events1 ++ events2) o = run prettyBytes events2 (run prettyBytes events1 o).
Proof.
  revert o. induction events1 as [|[now e] events1 IH]; intros o.
  - by destruct events2, o.
  - destruct o; cbn [app run]; [apply IH| | |]; by destruct events2 as [|[]].
Qed.

Lemma run_stopped events (o : outcome) s' :
  run prettyBytes events o = Running s' -> exists s, o = Running s.
Proof. destruct o; [by eexists| | |]; by destruct events as [|[]]. Qed.

(** A property of the globals kept by every handler is kept by every
    schedule. *)
Lemma run_invariant (P : State -> Prop) :
  (forall now e s s', P s -> step prettyBytes now e s = Running s' -> P s') ->
  forall events s s',
    P s -> run prettyBytes events (Running s) = Running s' -> P s'.
Proof.
  intros Hstep. induction events as [|[now e] events IH]; intros s s' Hs; cbn [run].
  - by intros [= <-].
  - intros Hrun. destruct (run_stopped _ _ _ Hrun) as [s1 Hs1].
    rewrite Hs1 in Hrun. eauto.
Qed.

(** What no handler touches, and what handlers only add to. *)
Lemma step_frame now e s s' :
  step prettyBytes now e s = Running s' ->
  program s' = program s
  /\ startTime s' = startTime s
  /\ (exists added, out s' = out s ++ added
                    /\ (intermediate (program s) = true -> unlinked added = []))
  /\ (exists chunk, data s' = data s ++ chunk)
  /\ (endTime s' = endTime s \/ endTime s' = now).
Proof.
  intros H. destruct s as [prog dat vm vf mf ts st et dp cp la dc cc mc rep o].
  destruct e; split_step H; try discriminate;
    injection H as <-; cbn;
    (split; [reflexivity|]); (split; [reflexivity|]);
    (split; [eexists; split;
               [rewrite <- ?app_assoc; try reflexivity; symmetry; apply app_nil_r
               |try reflexivity; try congruence]|]);
    (split; [first [by exists [] ; rewrite app_nil_r
                   |eexists; apply Buffer_concat_pair]|]);
    auto.
Qed.

(** The process exits from the event loop only through [error]. *)
Lemma step_exit now e s code printed :
  step prettyBytes now e s = Exited code printed ->
  code = 25 /\ (e = YtError \/ e = FfError)
  /\ exists msg, printed = out s ++ [ErrorLine msg].
Proof.
  intros H. destruct s as [prog dat vm vf mf ts st et dp cp la dc cc mc rep o].
  destruct e; split_step H; try discriminate;
    injection H as <- <-; (split; [reflexivity|]); split; auto; by eexists.
Qed.

(** Where an exception kills the process, and why. *)
Lemma step_uncaught now e s printed :
  step prettyBytes now e s = Uncaught printed ->
  (exists chunk,
      e = YtData chunk
      /\ (prettyBytes (of_nat (length (data s ++ chunk))) = None
          \/ prettyBytes (totalSize s) = None
          \/ prettyBytes (Fin (dlRate (length (data s ++ chunk)) (startTime s) now)) = None)
      /\ printed = out s)
  \/ (e = FfEnd false /\ converting s = true /\ intermediate (program s) = false
      /\ printed = out s)
  \/ (exists d,
         e = Probed (Some d)
         /\ (prettyBytes (size d) = None \/ prettyBytes (bit_rate d) = None)
         /\ written_tags printed = written_tags (out s)
         /\ written_files printed = written_files (out s)
         /\ unlinked printed = unlinked (out s)
         /\ printed_runtime printed
            = printed_runtime (out s) ++ [(endTime s - startTime s)%Q]).
Proof.
  intros H. destruct s as [prog dat vm vf mf ts st et dp cp la dc cc mc rep o].
  destruct e; try (split_step H; discriminate).
  - left. exists chunk. cbn [data totalSize startTime out].
    cbn [step] in H. unfold on_data in H. rewrite Buffer_concat_pair in H.
    split_step H; try discriminate; injection H as <-; auto.
  - right. left. split_step H; try discriminate; injection H as <-. cbn. auto.
  - right. right. split_step H; try discriminate; injection H as <-;
      eexists; (split; [reflexivity|]); (split; [auto|]);
      unfold written_tags, written_files, unlinked, printed_runtime;
      rewrite <- ?app_assoc, !omap_app; cbn; rewrite ?app_nil_r; done.
Qed.

(** Where an exception stays in a promise, and why. *)
Lemma step_abandoned now e s printed :
  step prettyBytes now e s = Abandoned printed ->
  printed = out s
  /\ ((exists stored, e = DownloadThen stored /\ downloadCompleted s = Resolved
                      /\ (videoMetadata s = None \/ stored = false))
      \/ (exists ask typing, e = ConvertThen ask typing /\ convertCompleted s = Resolved
                             /\ videoMetadata s = None)).
Proof.
  intros H. destruct s as [prog dat vm vf mf ts st et dp cp la dc cc mc rep o].
  destruct e; split_step H; try discriminate; injection H as <-; cbn;
    (split; [reflexivity|]); [left|left|right]; eauto 6.
Qed.

(** When the tags and the intermediate file are written. *)
Lemma step_writes now e s s' :
  step prettyBytes now e s = Running s' ->
  ((written_tags (out s') = written_tags (out s)
    /\ (convertCompleted s' = Delivered -> convertCompleted s = Delivered))
   \/ (convertCompleted s = Resolved /\ convertCompleted s' = Delivered
       /\ exists m, written_tags (out s') = written_tags (out s) ++ [m]))
  /\ ((written_files (out s') = written_files (out s)
       /\ (downloadCompleted s' = Delivered -> downloadCompleted s = Delivered))
      \/ (downloadCompleted s = Resolved /\ downloadCompleted s' = Delivered
          /\ exists f, written_files (out s') = written_files (out s) ++ [f])).
Proof.
  intros H. destruct s as [prog dat vm vf mf ts st et dp cp la dc cc mc rep o].
  destruct e; split_step H; try discriminate; injection H as <-;
    cbn; unfold written_tags, written_files;
    rewrite <- ?app_assoc, ?omap_app; cbn [omap app]; rewrite ?app_nil_r;
    (split;
     (first [left; split; [reflexivity|repeat match goal with p : promise |- _ => destruct p end; cbn; congruence]
            |right; repeat split; by eexists])).
Qed.

(** The promises only move forward, and the conversion promise leaves
    [Pending] only while the conversion handlers exist. *)
Lemma step_promises now e s s' :
  step prettyBytes now e s = Running s' ->
  (downloadCompleted s = Delivered -> downloadCompleted s' = Delivered)
  /\ (convertCompleted s = Delivered -> convertCompleted s' = Delivered)
  /\ (convertCompleted s' <> Pending ->
      convertCompleted s <> Pending \/ downloadCompleted s = Delivered).
Proof.
  intros H. destruct s as [prog dat vm vf mf ts st et dp cp la dc cc mc rep o].
  destruct e; split_step H; try discriminate; injection H as <-; cbn;
    repeat split; try congruence;
    repeat match goal with p : promise |- _ => destruct p end; cbn; auto; congruence.
Qed.

(** Induction over a schedule: [P] is kept by the handlers that return,
    [R] holds of what is printed however the run ends.  [T] restricts
    the timed events of the schedule. *)
Lemma run_induction (P : State -> Prop) (R : list output -> Prop) (T : Q * event -> Prop) :
  (forall now e s s',
      T (now, e) -> P s -> step prettyBytes now e s = Running s' -> P s') ->
  (forall s, P s -> R (out s)) ->
  (forall now e s code printed,
      T (now, e) -> P s -> step prettyBytes now e s = Exited code printed -> R printed) ->
  (forall now e s printed,
      T (now, e) -> P s -> step prettyBytes now e s = Uncaught printed -> R printed) ->
  (forall now e s printed,
      T (now, e) -> P s -> step prettyBytes now e s = Abandoned printed -> R printed) ->
  forall events s,
    Forall T events -> P s -> R (printed_by (run prettyBytes events (Running s))).
Proof.
  intros Hstep Hout Hexit Hthrow Hkept events.
  induction events as [|[now e] events IH]; intros s HT Hs; cbn [run].
  - by apply Hout.
  - apply Forall_cons in HT as [Hnow HT].
    destruct (step prettyBytes now e s) as [s1|code printed|printed|printed] eqn:E.
    + eapply IH; eauto.
    + destruct events as [|[]]; cbn; eauto.
    + destruct events as [|[]]; cbn; eauto.
    + destruct events as [|[]]; cbn; eauto.
Qed.

(** The [Runtime] line is printed by the probe callback only, from the
    two timestamps as they are then. *)
Lemma step_runtime now e s s' :
  step prettyBytes now e s = Running s' ->
  printed_runtime (out s') = printed_runtime (out s)
  \/ printed_runtime (out s') = printed_runtime (out s) ++ [(endTime s - startTime s)%Q].
Proof.
  intros H. destruct s as [prog dat vm vf mf ts st et dp cp la dc cc mc rep o].
  destruct e; split_step H; try discriminate; injection H as <-; cbn;
    unfold printed_runtime; rewrite <- ?app_assoc, ?omap_app; cbn [omap app];
    rewrite ?app_nil_r; auto.
Qed.

Lemma Forall_True {A} (l : list A) : Forall (fun _ => True) l.
Proof. by apply Forall_forall. Qed.

End Events.

(** ** Any schedule of events *)

(** X1.  Whatever events arrive and in whatever order, while the process
    lives the options and the start timestamp are those of the start, and
    the buffer and the output are extensions of what they were. *)
Theorem handlers_only_append :
  forall prettyBytes events s s',
    run prettyBytes events (Running s) = Running s' ->
    program s' = program s
    /\ startTime s' = startTime s
    /\ data s `prefix_of` data s'
    /\ out s `prefix_of` out s'.
Proof.
  intros pb events s s'.
  apply (run_invariant pb
           (fun x => program x = program s /\ startTime x = startTime s
                     /\ data s `prefix_of` data x /\ out s `prefix_of` out x));
    [|done].
  intros now e s1 s2 (Hp & Hs & Hd & Ho) Hstep.
  apply step_frame in Hstep as (Hp2 & Hs2 & (added & Ho2 & _) & (chunk & Hd2) & _).
  rewrite Hp2, Hs2, Hd2, Ho2. repeat split; try done.
  - by apply prefix_app_r.
  - by apply prefix_app_r.
Qed.

Lemma handlers_only_append_witness :
  program (demo_state (demo_fetch ++ demo_convert)) = program (demo_state demo_fetch)
  /\ startTime (demo_state (demo_fetch ++ demo_convert)) = startTime (demo_state demo_fetch)
  /\ data (demo_state demo_fetch) `prefix_of` data (demo_state (demo_fetch ++ demo_convert))
  /\ out (demo_state demo_fetch) `prefix_of` out (demo_state (demo_fetch ++ demo_convert)).
Proof.
  apply (handlers_only_append prettyBytes_guarded demo_convert).
  vm_compute. reflexivity.
Defined.

(** X2.  With the option to keep the intermediate file the script never
    deletes anything: no schedule, however it ends, adds a call of
    [fs.unlinkSync]. *)
Theorem kept_intermediate_file_is_never_deleted :
  forall prettyBytes events s,
    intermediate (program s) = true ->
    unlinked (printed_by (run prettyBytes events (Running s))) = unlinked (out s).
Proof.
  intros pb events s Hkeep.
  apply (run_induction pb
           (fun x => intermediate (program x) = true /\ unlinked (out x) = unlinked (out s))
           (fun printed => unlinked printed = unlinked (out s))
           (fun _ => True)); [| | | | |apply Forall_True|done].
  - intros now e s1 s2 _ [Hk Hu] Hstep.
    apply step_frame in Hstep as (Hp & _ & (added & Ho & Hadd) & _).
    rewrite Hp, Ho. split; [done|].
    unfold unlinked in *. rewrite omap_app, Hu, Hadd by done. apply app_nil_r.
  - by intros s1 [_ Hu].
  - intros now e s1 code printed _ [_ Hu] Hstep.
    apply step_exit in Hstep as (_ & _ & msg & ->).
    unfold unlinked in *. rewrite omap_app, Hu. apply app_nil_r.
  - intros now e s1 printed _ [_ Hu] Hstep.
    apply step_uncaught in Hstep
      as [(? & _ & _ & ->)|[(_ & _ & _ & ->)|(? & _ & _ & _ & _ & -> & _)]]; done.
  - intros now e s1 printed _ [_ Hu] Hstep.
    by apply step_abandoned in Hstep as [-> _].
Qed.

Lemma kept_intermediate_file_is_never_deleted_witness :
  unlinked
    (printed_by
       (run prettyBytes_guarded (demo_fetch ++ demo_convert ++ demo_tagging)
          (Running (started keeping_program 0 0))))
  = unlinked (out (started keeping_program 0 0)).
Proof.
  apply (kept_intermediate_file_is_never_deleted prettyBytes_guarded
           (demo_fetch ++ demo_convert ++ demo_tagging)).
  reflexivity.
Defined.

(** X3.  From the event loop the process exits in one way only: a
    download or conversion error event was delivered, the status is 25
    and the last thing printed is the error line. *)
Theorem event_loop_exits_only_on_error_events :
  forall prettyBytes events s code printed,
    run prettyBytes events (Running s) = Exited code printed ->
    code = 25
    /\ (exists now, (now, YtError) ∈ events \/ (now, FfError) ∈ events)
    /\ exists before msg, printed = before ++ [ErrorLine msg].
Proof.
  intros pb events. induction events as [|[now e] events IH]; intros s code printed; cbn [run].
  - discriminate.
  - destruct (step pb now e s) as [s1|code1 printed1|printed1|printed1] eqn:E.
    + intros H. destruct (IH _ _ _ H) as (Hc & (t & Ht) & Hp).
      split; [done|]. split; [|done]. exists t.
      destruct Ht; [left|right]; by apply list_elem_of_further.
    + intros H. assert (H' : Exited code1 printed1 = Exited code printed)
        by (by destruct events as [|[]]).
      injection H' as <- <-.
      apply step_exit in E as (Hc & He & msg & Hp).
      split; [done|]. split; [|by eexists _, _].
      exists now. destruct He as [->| ->]; [left|right]; apply list_elem_of_here.
    + intros H. by destruct events as [|[]].
    + intros H. by destruct events as [|[]].
Qed.

Lemma event_loop_exits_only_on_error_events_witness :
  25 = 25
  /\ (exists now, (now, YtError) ∈ demo_fetch ++ [(5%Q, FfError)]
                  \/ (now, FfError) ∈ demo_fetch ++ [(5%Q, FfError)])
  /\ exists before msg,
      printed_by (run prettyBytes_guarded (demo_fetch ++ [(5%Q, FfError)])
                    (Running (started demo_program 0 0)))
      = before ++ [ErrorLine msg].
Proof.
  apply (event_loop_exits_only_on_error_events prettyBytes_guarded
           (demo_fetch ++ [(5%Q, FfError)]) (started demo_program 0 0)).
  vm_compute. reflexivity.
Defined.

(** X4.  In a run from the start, whatever the events and their order,
    the intermediate file is written at most once, the tags are handed to
    the writer at most once, and tags are written only after the
    intermediate file was. *)
Theorem files_and_tags_are_written_at_most_once :
  forall prettyBytes prog t0 t1 events,
    let printed := printed_by (run prettyBytes events (main prog t0 t1)) in
    (length (written_files printed) <= 1)%nat
    /\ (length (written_tags printed) <= 1)%nat
    /\ (written_tags printed <> [] -> written_files printed <> []).
Proof.
  intros pb prog t0 t1 events. unfold main.
  destruct (args prog !! 0%nat) as [[|c u]|].
  1,3: destruct events as [|[]]; cbn; repeat split; (lia || done).
  match goal with |- context [Running ?x] => set (s0 := x) end.
  cbv zeta.
  apply (run_induction pb
           (fun s =>
              (downloadCompleted s = Delivered -> length (written_files (out s)) = 1%nat)
              /\ (downloadCompleted s <> Delivered -> written_files (out s) = [])
              /\ (convertCompleted s = Delivered -> length (written_tags (out s)) = 1%nat)
              /\ (convertCompleted s <> Delivered -> written_tags (out s) = [])
              /\ (convertCompleted s <> Pending -> downloadCompleted s = Delivered))
           (fun printed =>
              (length (written_files printed) <= 1)%nat
              /\ (length (written_tags printed) <= 1)%nat
              /\ (written_tags printed <> [] -> written_files printed <> []))
           (fun _ => True)); [| | | | |apply Forall_True|].
  - intros now e s s' _ (F1 & F0 & T1 & T0 & Ord) Hstep.
    destruct (step_promises pb _ _ _ _ Hstep) as (Pd & Pc & Po).
    destruct (step_writes pb _ _ _ _ Hstep) as [HT HF].
    assert (Dd : forall p : promise, p = Delivered \/ p <> Delivered)
      by (intros []; auto; right; discriminate).
    repeat split.
    + intros Hd. destruct HF as [[-> Hback]|(Hres & _ & f & ->)]; [auto|].
      rewrite length_app, F0 by congruence. done.
    + intros Hd. destruct HF as [[-> Hback]|(_ & Hdel & _)]; [|done].
      apply F0. intros Hold. auto.
    + intros Hc. destruct HT as [[-> Hback]|(Hres & _ & m & ->)]; [auto|].
      rewrite length_app, T0 by congruence. done.
    + intros Hc. destruct HT as [[-> Hback]|(_ & Hdel & _)]; [|done].
      apply T0. intros Hold. auto.
    + intros Hc. destruct (Po Hc) as [Hold|Hold]; auto.
  - intros s (F1 & F0 & T1 & T0 & Ord).
    destruct (downloadCompleted s) eqn:Ed, (convertCompleted s) eqn:Ec;
      rewrite ?F1, ?T1, ?F0, ?T0 by done; cbn; repeat split; try lia; try done;
      try (exfalso; by discriminate (Ord ltac:(done)));
      intros _ Hnil; specialize (F1 eq_refl); by rewrite Hnil in F1.
  - intros now e s code printed _ (F1 & F0 & T1 & T0 & Ord) Hstep.
    apply step_exit in Hstep as (_ & _ & msg & ->).
    unfold written_files, written_tags in *. rewrite !omap_app. cbn [omap].
    rewrite !app_nil_r.
    destruct (downloadCompleted s) eqn:Ed, (convertCompleted s) eqn:Ec;
      rewrite ?F1, ?T1, ?F0, ?T0 by done; cbn; repeat split; try lia; try done;
      try (exfalso; by discriminate (Ord ltac:(done)));
      intros _ Hnil; specialize (F1 eq_refl); by rewrite Hnil in F1.
  - intros now e s printed _ (F1 & F0 & T1 & T0 & Ord) Hstep.
    assert (written_files printed = written_files (out s)
            /\ written_tags printed = written_tags (out s)) as [-> ->].
    { apply step_uncaught in Hstep
        as [(? & _ & _ & ->)|[(_ & _ & _ & ->)|(? & _ & _ & -> & -> & _)]]; done. }
    destruct (downloadCompleted s) eqn:Ed, (convertCompleted s) eqn:Ec;
      rewrite ?F1, ?T1, ?F0, ?T0 by done; cbn; repeat split; try lia; try done;
      try (exfalso; by discriminate (Ord ltac:(done)));
      intros _ Hnil; specialize (F1 eq_refl); by rewrite Hnil in F1.
  - intros now e s printed _ (F1 & F0 & T1 & T0 & Ord) Hstep.
    apply step_abandoned in Hstep as [-> _].
    destruct (downloadCompleted s) eqn:Ed, (convertCompleted s) eqn:Ec;
      rewrite ?F1, ?T1, ?F0, ?T0 by done; cbn; repeat split; try lia; try done;
      try (exfalso; by discriminate (Ord ltac:(done)));
      intros _ Hnil; specialize (F1 eq_refl); by rewrite Hnil in F1.
  - subst s0. cbn. repeat split; done.
Qed.

(** X5.  When the clock never reads less than at the start, no schedule
    from the start prints a negative runtime. *)
Theorem printed_runtime_is_not_negative :
  forall prettyBytes prog t0 t1 events,
    (t0 <= t1)%Q ->
    Forall (fun te => (t0 <= te.1)%Q) events ->
    Forall (fun q => (0 <= q)%Q)
      (printed_runtime (printed_by (run prettyBytes events (main prog t0 t1)))).
Proof.
  intros pb prog t0 t1 events Hstart Htimes. unfold main.
  destruct (args prog !! 0%nat) as [[|c u]|].
  1,3: destruct events as [|[]]; cbn; constructor.
  match goal with |- context [Running ?x] => set (s0 := x) end.
  assert (Hsub : forall a b : Q, (a <= b)%Q -> (0 <= b - a)%Q).
  { intros a b Hab. unfold Qminus. by apply Qle_minus_iff in Hab. }
  apply (run_induction pb
           (fun s => startTime s = t0 /\ (t0 <= endTime s)%Q
                     /\ Forall (fun q => (0 <= q)%Q) (printed_runtime (out s)))
           (fun printed => Forall (fun q => (0 <= q)%Q) (printed_runtime printed))
           (fun te => (t0 <= te.1)%Q)); [| | | | |exact Htimes|].
  - intros now e s s' Hnow (Hs & He & Hp) Hstep.
    destruct (step_frame pb _ _ _ _ Hstep) as (_ & Hs' & _ & _ & He').
    split; [congruence|]. split; [by destruct He' as [-> | ->]|].
    destruct (step_runtime pb _ _ _ _ Hstep) as [-> | ->]; [done|].
    apply Forall_app. split; [done|]. constructor; [|constructor].
    apply Hsub. by rewrite Hs.
  - by intros s (_ & _ & Hp).
  - intros now e s code printed _ (_ & _ & Hp) Hstep.
    apply step_exit in Hstep as (_ & _ & msg & ->).
    unfold printed_runtime in *. rewrite omap_app. cbn [omap]. by rewrite app_nil_r.
  - intros now e s printed _ (Hs & He & Hp) Hstep.
    apply step_uncaught in Hstep
      as [(? & _ & _ & ->)|[(_ & _ & _ & ->)|(? & _ & _ & _ & _ & _ & ->)]];
      try done.
    apply Forall_app. split; [done|]. constructor; [|constructor].
    apply Hsub. by rewrite Hs.
  - intros now e s printed _ (_ & _ & Hp) Hstep.
    by apply step_abandoned in Hstep as [-> _].
  - subst s0. cbn. repeat split; [done|constructor].
Qed.

Lemma printed_runtime_is_not_negative_witness :
  Forall (fun q => (0 <= q)%Q)
    (printed_runtime
       (printed_by (run prettyBytes_guarded (demo_fetch ++ demo_convert ++ demo_tagging)
                      (main demo_program 0 0)))).
Proof.
  apply printed_runtime_is_not_negative; [done|].
  repeat constructor; cbn; done.
Defined.



(** ** The guess for any title *)

Section Trim.

Implicit Types (s : jsstring) (c : jschar).

Lemma trimStart_head s :
  match trimStart s with c :: _ => is_space c = false | [] => True end.
Proof.
  induction s as [|c s IH]; cbn [trimStart]; [done|].
  by destruct (is_space c) eqn:E.
Qed.

Lemma trimStart_snoc s c :
  is_space c = false -> trimStart (s ++ [c]) = trimStart s ++ [c].
Proof.
  intros Hc. induction s as [|d s IH]; cbn [app trimStart].
  - by rewrite Hc.
  - by destruct (is_space d).
Qed.

Lemma trimEnd_cons c s : is_space c = false -> trimEnd (c :: s) = c :: trimEnd s.
Proof.
  intros Hc. unfold trimEnd. cbn [rev]. by rewrite trimStart_snoc, rev_app_distr.
Qed.

Lemma trim_trimmed s : trimmed (trim s).
Proof.
  unfold trimmed, trim. split.
  - pose proof (trimStart_head s) as H. destruct (trimStart s) as [|c t]; [done|].
    by rewrite trimEnd_cons.
  - unfold trimEnd. rewrite rev_involutive. apply trimStart_head.
Qed.

End Trim.

(** X7.  Whatever the video title, either the pattern does not match, no
    artist is guessed and the guessed title is the whole title, untrimmed;
    or the title contains a stretch g1, hyphen, g2 of characters of the
    class with g1 and g2 non-empty and g2 running up to the end of the
    title or to the first character outside the class, and the guesses
    are g1 and g2 trimmed. *)
Theorem guess_for_any_title :
  forall t : jsstring,
    (prop (guessed {| title := t |}) "artist" = JNull
     /\ prop (guessed {| title := t |}) "title" = JStr t)
    \/ (exists pre g1 g2 post,
           t = pre ++ g1 ++ hyphen :: g2 ++ post
           /\ g1 <> [] /\ g2 <> []
           /\ Forall (fun c => title_class c = true) g1
           /\ Forall (fun c => title_class c = true) g2
           /\ match post with [] => True | c :: _ => title_class c = false end
           /\ prop (guessed {| title := t |}) "artist" = JStr (trim g1)
           /\ prop (guessed {| title := t |}) "title" = JStr (trim g2)).
Proof.
  intros t. unfold guessed. cbn [title].
  destruct (exec TITLE_REGEX t) as [m|] eqn:E.
  - right. apply exec_sound in E as (pre & t' & -> & Hm).
    apply match_here_sound in Hm as (g1 & g2 & post & -> & H1 & H2 & C1 & C2 & Hstop & ->).
    exists pre, g1, g2, post. repeat split; done.
  - left. split; reflexivity.
Qed.

(** X8.  An artist is guessed exactly when the title has a hyphen with a
    character of the class directly before it and directly after it. *)
Theorem artist_is_guessed_iff :
  forall t : jsstring,
    prop (guessed {| title := t |}) "artist" <> JNull
    <-> exists pre c d post,
          t = pre ++ c :: hyphen :: d :: post
          /\ title_class c = true /\ title_class d = true.
Proof.
  intros t. split.
  - intros Hartist. destruct (guess_for_any_title t) as [[Hnull _]|H]; [done|].
    destruct H as (pre & g1 & g2 & post & -> & H1 & H2 & C1 & C2 & _).
    destruct g2 as [|d g2]; [done|].
    destruct (exists_last H1) as (g1' & c & ->).
    apply Forall_app in C1 as [_ Cc]. apply Forall_cons in Cc as [Cc _].
    apply Forall_cons in C2 as [Cd _].
    exists (pre ++ g1'), c, d, (g2 ++ post). split; [|done].
    by rewrite <- !app_assoc.
  - intros (pre & c & d & post & -> & Hc & Hd).
    unfold guessed. cbn [title].
    destruct (exec_complete TITLE_REGEX pre (c :: hyphen :: d :: post)) as [m ->].
    { by apply match_here_complete. }
    unfold prop. rewrite lookup_insert_ne, lookup_insert_eq by done. done.
Qed.

(** X9.  A guessed artist never starts or ends with white space, and
    then neither does the guessed title. *)
Theorem guessed_artist_and_title_are_trimmed :
  forall (t a : jsstring),
    prop (guessed {| title := t |}) "artist" = JStr a ->
    trimmed a
    /\ exists b, prop (guessed {| title := t |}) "title" = JStr b /\ trimmed b.
Proof.
  intros t a Ha. destruct (guess_for_any_title t) as [[Hnull _]|H]; [congruence|].
  destruct H as (pre & g1 & g2 & post & _ & _ & _ & _ & _ & _ & Hartist & Htitle).
  rewrite Hartist in Ha. injection Ha as <-.
  split; [apply trim_trimmed|]. exists (trim g2). split; [done|apply trim_trimmed].
Qed.

Lemma guessed_artist_and_title_are_trimmed_witness :
  trimmed (js "AC/DC")
  /\ exists b, prop (guessed {| title := js "  AC/DC   -   T.N.T. (live)  " |}) "title" = JStr b
               /\ trimmed b.
Proof.
  apply (guessed_artist_and_title_are_trimmed (js "  AC/DC   -   T.N.T. (live)  ")).
  vm_compute. reflexivity.
Defined.

(** ** The stages one after the other *)

Section Stages.

Variable prettyBytes : number -> option jsstring.

Hypothesis prettyBytes_finite : forall q, is_Some (prettyBytes (Fin q)).

(** The chunks of a download change the buffer and the bar, and nothing
    else; the bar is ticked once per chunk, by the length of the chunk. *)
Lemma run_chunks_frame chunks :
  forall s n,
    totalSize s = Fin n ->
    exists bar,
      run prettyBytes (chunk_events chunks) (Running s)
      = Running (set_downloadProgress bar (set_data (data s ++ concat (map snd chunks)) s))
      /\ tick_lengths bar
         = tick_lengths (downloadProgress s)
           ++ map (fun tc => Some (of_nat (length tc.2))) chunks
      /\ total bar = total (downloadProgress s)
      /\ format bar = format (downloadProgress s).
Proof.
  induction chunks as [|[now chunk] chunks IH]; intros s n Hn.
  - exists (downloadProgress s). cbn. rewrite !app_nil_r. by destruct s.
  - destruct (on_data_finite prettyBytes prettyBytes_finite chunk now s n Hn)
      as (amount & speed & _ & Hstep).
    cbn [chunk_events map run fst snd step]. rewrite Hstep.
    match goal with |- context [Running ?next] => set (s1 := next) end.
    destruct (IH s1 n) as (bar & Hrun & Hticks & Htotal & Hformat); [exact Hn|].
    exists bar. split; [|split; [|split]].
    + unfold chunk_events in Hrun. rewrite Hrun. subst s1. destruct s. cbn.
      by rewrite <- app_assoc.
    + rewrite Hticks. subst s1. cbn [downloadProgress set_downloadProgress].
      rewrite tick_lengths_tick, <- app_assoc. reflexivity.
    + by rewrite Htotal.
    + by rewrite Hformat.
Qed.

(** The reports of a conversion change the bar of the conversion and
    [last], and nothing else. *)
Lemma run_progress_frame reports :
  forall s bar previous,
    converting s = true ->
    convertProgress s = Some bar ->
    last s = of_Z previous ->
    exists bar',
      run prettyBytes (progress_events reports) (Running s)
      = Running
          (set_convertProgress (Some bar')
             (set_last (of_Z (foldl (fun _ r => Qceiling r.1.2) previous reports)) s))
      /\ tick_lengths bar'
         = tick_lengths bar
           ++ map (fun d => Some (of_Z d))
                (ceiling_deltas previous (map (fun r => r.1.2) reports)).
Proof.
  induction reports as [|[[now p] kbps] reports IH]; intros s bar previous Hconv Hbar Hlast.
  - exists bar. cbn. rewrite app_nil_r. destruct s. cbn in *. by subst.
  - cbn [progress_events map run step fst snd]. rewrite Hconv.
    unfold ffmpeg_progress. rewrite Hlast. cbn [ceil set_last convertProgress].
    rewrite sub_of_Z, Hbar. cbn [option_map].
    match goal with |- context [Running ?next] => set (s1 := next) end.
    destruct (IH s1 (tick (Some (of_Z (Qceiling p - previous)))
                       [("rate", kbps ++ js "kbps")] bar) (Qceiling p))
      as (bar' & Hrun & Hticks); [exact Hconv|reflexivity|reflexivity|].
    exists bar'. split.
    + unfold progress_events in Hrun. rewrite Hrun. subst s1. by destruct s.
    + rewrite Hticks, tick_lengths_tick, <- app_assoc. reflexivity.
Qed.

(** The metadata and the response: the expected size is read from the
    header and a new bar is set up with it as total. *)
Lemma stage_response s info header ta tb :
  run prettyBytes [(ta, YtInfo info); (tb, YtResponse header)] (Running s)
  = Running
      (set_downloadProgress (new_ProgressBar DL_PROGRESS_BAR_FORMAT (parseInt header))
         (set_totalSize (parseInt header) (set_videoMetadata (Some info) s))).
Proof. by destruct s. Qed.

(** The end of the download and the callback of its promise, when the
    file can be written: the buffer is written to the intermediate file
    and the conversion is started. *)
Lemma stage_handover s info tc td :
  videoMetadata s = Some info ->
  downloadCompleted s = Pending ->
  let video := if intermediate (program s) then title info ++ js ".mp4"
               else js "/tmp/" ++ title info ++ js ".mp4" in
  let music := title info ++ js ".mp3" in
  run prettyBytes [(tc, YtEnd); (td, DownloadThen true)] (Running s)
  = Running
      (say (Convert video music)
         (set_last (of_Z 0)
            (set_convertProgress
               (Some (new_ProgressBar CONVERT_PROGRESS_BAR_FORMAT (of_Z 100)))
               (say (WriteFile video (data s))
                  (set_musicFileName (Some music)
                     (set_videoFileName (Some video)
                        (set_downloadCompleted Delivered s))))))).
Proof.
  destruct s as [prog dat vm vf mf ts st et dp cp la dc cc mc rep o].
  cbn [videoMetadata downloadCompleted]. intros -> ->. reflexivity.
Qed.

(** The end of the conversion, the prompts, the tag write, and the
    probe, when the intermediate file can be deleted and the numbers
    probed are finite. *)
Lemma stage_report s info ask typing err res te tf tg th ti :
  converting s = true ->
  convertCompleted s = Pending ->
  metadataCompleted s = Pending ->
  videoMetadata s = Some info ->
  match res with
  | Some d => exists a b, size d = Fin a /\ bit_rate d = Fin b
  | None => True
  end ->
  exists s' report,
    run prettyBytes
      [(te, FfEnd true); (tf, ConvertThen ask typing); (tg, TagsWritten err);
       (th, MetadataThen); (ti, Probed res)] (Running s) = Running s'
    /\ reported s' = true
    /\ data s' = data s
    /\ out s'
       = out s
         ++ (if intermediate (program s) then []
             else [Unlink (from_option id [] (videoFileName s))])
         ++ Console "Enter song metadata:"
         :: Prompted (tf + typing)
         :: WriteTags (from_option id [] (musicFileName s))
              (answer_with ask (processMetadata info))
         :: (if err then [WarningLine "Failed to write mp3 metadata."] else [])
         ++ Completed :: Probe (from_option id [] (musicFileName s)) :: report
    /\ match res with
       | None => report = [UnableToRead]
       | Some d =>
           exists sz br,
             prettyBytes (size d) = Some sz
             /\ prettyBytes (bit_rate d) = Some br
             /\ report = [Runtime (tf - startTime s); File (filename d); Size sz;
                          Length (duration d); BitRate (br ++ js "ps")]
       end.
Proof.
  destruct s as [prog dat vm vf mf ts st et dp cp la dc cc mc rep o].
  destruct prog as [arguments keep low].
  cbn [converting convertCompleted metadataCompleted videoMetadata downloadCompleted].
  intros Hconv -> -> -> Hres. destruct dc; try discriminate.
  set (metadata := answer_with ask (processMetadata info)).
  destruct res as [d|].
  - destruct Hres as (a & b & Ha & Hb).
    destruct (prettyBytes_finite a) as [sz Hsz], (prettyBytes_finite b) as [br Hbr].
    rewrite <- Ha in Hsz. rewrite <- Hb in Hbr.
    exists (set_out
              (o ++ (if keep then [] else [Unlink (from_option id [] vf)])
                 ++ Console "Enter song metadata:"
                 :: Prompted (tf + typing)
                 :: WriteTags (from_option id [] mf) metadata
                 :: (if err then [WarningLine "Failed to write mp3 metadata."] else [])
                 ++ [Completed; Probe (from_option id [] mf);
                     Runtime (tf - st); File (filename d); Size sz;
                     Length (duration d); BitRate (br ++ js "ps")])
              {| program := {| args := arguments; intermediate := keep; lowQuality := low |};
                 data := dat; videoMetadata := Some info; videoFileName := vf;
                 musicFileName := mf; totalSize := ts; startTime := st; endTime := tf;
                 downloadProgress := dp; convertProgress := cp; last := la;
                 downloadCompleted := Delivered; convertCompleted := Delivered;
                 metadataCompleted := Delivered; reported := true; out := o |}).
    eexists. split; [|split; [reflexivity|split; [reflexivity|split; [reflexivity|]]]].
    + destruct keep, err; script_nf; rewrite lines_processMetadata;
        rewrite Hsz; script_nf; rewrite Hbr; script_nf;
        cbn [map]; rewrite <- ?app_assoc; reflexivity.
    + by exists sz, br.
  - exists (set_out
              (o ++ (if keep then [] else [Unlink (from_option id [] vf)])
                 ++ Console "Enter song metadata:"
                 :: Prompted (tf + typing)
                 :: WriteTags (from_option id [] mf) metadata
                 :: (if err then [WarningLine "Failed to write mp3 metadata."] else [])
                 ++ [Completed; Probe (from_option id [] mf); UnableToRead])
              {| program := {| args := arguments; intermediate := keep; lowQuality := low |};
                 data := dat; videoMetadata := Some info; videoFileName := vf;
                 musicFileName := mf; totalSize := ts; startTime := st; endTime := tf;
                 downloadProgress := dp; convertProgress := cp; last := la;
                 downloadCompleted := Delivered; convertCompleted := Delivered;
                 metadataCompleted := Delivered; reported := true; out := o |}).
    eexists. split; [|split; [reflexivity|split; [reflexivity|split; [reflexivity|]]]].
    + destruct keep, err; script_nf; rewrite lines_processMetadata;
        cbn [map]; rewrite <- ?app_assoc; reflexivity.
    + reflexivity.
Qed.

End Stages.

(** X10.  While the expected size is a number and the byte formatter
    accepts finite numbers, every chunk ticks the download bar once, by
    the length of the chunk; the total of the bar stays, and apart from
    the buffer and the bar no global changes. *)
Theorem download_bar_advances_by_chunk_lengths :
  forall prettyBytes,
    (forall q, is_Some (prettyBytes (Fin q))) ->
    forall s n chunks,
      totalSize s = Fin n ->
      exists bar,
        run prettyBytes (chunk_events chunks) (Running s)
        = Running (set_downloadProgress bar (set_data (data s ++ concat (map snd chunks)) s))
        /\ tick_lengths bar
           = tick_lengths (downloadProgress s)
             ++ map (fun tc => Some (of_nat (length tc.2))) chunks
        /\ total bar = total (downloadProgress s).
Proof.
  intros pb Hpb s n chunks Hn.
  destruct (run_chunks_frame pb Hpb chunks s n Hn) as (bar & Hrun & Hticks & Htotal & _).
  by exists bar.
Qed.

Lemma download_bar_advances_by_chunk_lengths_witness :
  exists bar,
    run prettyBytes_guarded (chunk_events [(1%Q, [x01; x02]); (2%Q, [x03])])
      (Running (demo_state (take 2 demo_fetch)))
    = Running
        (set_downloadProgress bar
           (set_data (data (demo_state (take 2 demo_fetch))
                      ++ concat (map snd [(1%Q, [x01; x02]); (2%Q, [x03])]))
              (demo_state (take 2 demo_fetch))))
    /\ tick_lengths bar
       = tick_lengths (downloadProgress (demo_state (take 2 demo_fetch)))
         ++ map (fun tc : Q * Buffer => Some (of_nat (length tc.2)))
              [(1%Q, [x01; x02]); (2%Q, [x03])]
    /\ total bar = total (downloadProgress (demo_state (take 2 demo_fetch))).
Proof.
  apply (download_bar_advances_by_chunk_lengths prettyBytes_guarded
           prettyBytes_guarded_finite (demo_state (take 2 demo_fetch)) 3%Q).
  vm_compute. reflexivity.
Defined.

(** X11.  A progress report without a percentage (NaN) ticks by NaN and
    leaves NaN in [last], so the report after it ticks by NaN as well;
    the one after that is back to the difference of two ceilings. *)
Theorem progress_without_percentage :
  forall prettyBytes s bar t1 t2 t3 k1 k2 k3 (p q : Q),
    converting s = true ->
    convertProgress s = Some bar ->
    exists s' bar',
      run prettyBytes
        [(t1, FfProgress NaN k1); (t2, FfProgress (Fin p) k2); (t3, FfProgress (Fin q) k3)]
        (Running s) = Running s'
      /\ convertProgress s' = Some bar'
      /\ tick_lengths bar'
         = tick_lengths bar ++ [Some NaN; Some NaN; Some (of_Z (Qceiling q - Qceiling p))]
      /\ last s' = of_Z (Qceiling q).
Proof.
  intros pb s bar t1 t2 t3 k1 k2 k3 p q Hconv Hbar.
  destruct s as [prog dat vm vf mf ts st et dp cp la dc cc mc rep o].
  cbn in Hconv, Hbar. subst cp.
  cbn [run step converting downloadCompleted]. destruct dc; try discriminate.
  unfold ffmpeg_progress.
  cbn [run step converting downloadCompleted set_last set_convertProgress last
       convertProgress option_map ceil].
  assert (Hnan : forall x, sub x NaN = NaN) by (by intros []).
  rewrite sub_of_Z, Hnan.
  do 2 eexists. split; [reflexivity|]. split; [reflexivity|].
  split; [|reflexivity].
  rewrite !tick_lengths_tick, <- !app_assoc. reflexivity.
Qed.

Lemma progress_without_percentage_witness :
  exists s' bar',
    run prettyBytes_guarded
      [(3%Q, FfProgress NaN (js "0")); (4%Q, FfProgress (Fin (7 # 2)) (js "128"));
       (5%Q, FfProgress (Fin 9) (js "128"))]
      (Running (demo_state demo_fetch)) = Running s'
    /\ convertProgress s' = Some bar'
    /\ tick_lengths bar'
       = tick_lengths (new_ProgressBar CONVERT_PROGRESS_BAR_FORMAT (of_Z 100))
         ++ [Some NaN; Some NaN; Some (of_Z (Qceiling 9 - Qceiling (7 # 2)))]
    /\ last s' = of_Z (Qceiling 9).
Proof.
  apply (progress_without_percentage prettyBytes_guarded (demo_state demo_fetch));
    vm_compute; reflexivity.
Defined.


(** X12.  A run in which everything goes well.  With a URL, a byte
    formatter that accepts finite numbers, a content-length that is a
    number within the range of finite numbers, file operations that
    succeed and, if probing succeeds, a size and a bit rate that are
    numbers: after the metadata, the response, any chunks, the end of the
    download, any progress reports with a percentage, the end of the
    conversion, the prompts, the tag write (failed or not) and the probe
    (failed or not), the process is alive with status 0, the buffer is
    the chunks in order, and what it did is, in this order: header, fetch,
    write the buffer to the intermediate file, convert that file to the
    music file, delete the intermediate file unless it is to be kept,
    print the heading of the prompts, prompt, write the tags, warn if
    that failed, announce completion, probe the music file, report.  The
    intermediate file is in /tmp unless it is to be kept; the runtime
    reported is the clock at the end of the conversion minus the clock at
    the start. *)
Theorem a_complete_run :
  forall prettyBytes,
    (forall q, is_Some (prettyBytes (Fin q))) ->
    forall prog url t0 t1 info header n chunks reports ask typing err res
           ta tb tc td te tf tg th ti,
      args prog !! 0%nat = Some url ->
      url <> [] ->
      parseInt header = Fin n ->
      (- MAX_VALUE <= n)%Q /\ (n <= MAX_VALUE)%Q ->
      match res with
      | Some d => exists a b, size d = Fin a /\ bit_rate d = Fin b
      | None => True
      end ->
      let video := if intermediate prog then title info ++ js ".mp4"
                   else js "/tmp/" ++ title info ++ js ".mp4" in
      let music := title info ++ js ".mp3" in
      exists s' report,
        run prettyBytes
          ([(ta, YtInfo info); (tb, YtResponse header)]
           ++ chunk_events chunks
           ++ [(tc, YtEnd); (td, DownloadThen true)]
           ++ progress_events reports
           ++ [(te, FfEnd true); (tf, ConvertThen ask typing); (tg, TagsWritten err);
               (th, MetadataThen); (ti, Probed res)])
          (main prog t0 t1)
        = Running s'
        /\ exit_status (Running s') = Some 0
        /\ data s' = concat (map snd chunks)
        /\ out s'
           = [Header; Fetch url (if lowQuality prog then "lowest" else "highest");
              WriteFile video (concat (map snd chunks)); Convert video music]
             ++ (if intermediate prog then [] else [Unlink video])
             ++ Console "Enter song metadata:"
             :: Prompted (tf + typing)
             :: WriteTags music (answer_with ask (processMetadata info))
             :: (if err then [WarningLine "Failed to write mp3 metadata."] else [])
             ++ Completed :: Probe music :: report
        /\ match res with
           | None => report = [UnableToRead]
           | Some d =>
               exists sz br,
                 prettyBytes (size d) = Some sz
                 /\ prettyBytes (bit_rate d) = Some br
                 /\ report = [Runtime (tf - t0); File (filename d); Size sz;
                              Length (duration d); BitRate (br ++ js "ps")]
           end.
Proof.
  intros pb Hpb prog url t0 t1 info header n chunks reports ask typing err res
         ta tb tc td te tf tg th ti Hurl Hne Hparse _ Hres video music.
  unfold main, jsstring in *. rewrite Hurl. destruct url as [|c u]; [done|].
  match goal with |- context [Running ?x] => set (s0 := x) end.
  rewrite run_app, stage_response, Hparse.
  match goal with |- context [run pb _ (Running ?x)] => set (s1 := x) end.
  rewrite run_app.
  destruct (run_chunks_frame pb Hpb chunks s1 n eq_refl) as (bar & -> & _).
  match goal with |- context [run pb _ (Running ?x)] => set (s2 := x) end.
  rewrite run_app, (stage_handover pb s2 info tc td eq_refl eq_refl).
  match goal with |- context [run pb _ (Running ?x)] => set (s3 := x) end.
  rewrite run_app.
  destruct (run_progress_frame pb reports s3
              (new_ProgressBar CONVERT_PROGRESS_BAR_FORMAT (of_Z 100)) 0
              eq_refl eq_refl eq_refl) as (bar' & -> & _).
  match goal with |- context [run pb _ (Running ?x)] => set (s4 := x) end.
  destruct (stage_report pb Hpb s4 info ask typing err res te tf tg th ti
              eq_refl eq_refl eq_refl eq_refl Hres)
    as (s' & report & -> & Hreported & Hdata & Hout & Hreport).
  exists s', report. split; [reflexivity|].
  split; [cbn [exit_status]; by rewrite Hreported|].
  split; [rewrite Hdata; reflexivity|].
  split; [rewrite Hout; reflexivity|exact Hreport].
Qed.

Lemma a_complete_run_witness :
  exists s' report,
    run prettyBytes_guarded
      ([(0%Q, YtInfo {| title := js "Artist - Title" |}); (1%Q, YtResponse (Some (js "3")))]
       ++ chunk_events [(1%Q, [x01; x02]); (2%Q, [x03])]
       ++ [(2%Q, YtEnd); (2%Q, DownloadThen true)]
       ++ progress_events [(3%Q, 0%Q, js "128"); (10%Q, 100%Q, js "128")]
       ++ [(10%Q, FfEnd true); (10%Q, ConvertThen demo_answers 40); (50%Q, TagsWritten true);
           (50%Q, MetadataThen); (51%Q, Probed None)])
      (main demo_program 0 0)
    = Running s'
    /\ exit_status (Running s') = Some 0
    /\ data s' = concat (map snd [(1%Q, [x01; x02]); (2%Q, [x03])])
    /\ out s'
       = [Header; Fetch (js "https://youtu.be/dQw4w9WgXcQ") "highest";
          WriteFile (js "/tmp/" ++ js "Artist - Title" ++ js ".mp4")
            (concat (map snd [(1%Q, [x01; x02]); (2%Q, [x03])]));
          Convert (js "/tmp/" ++ js "Artist - Title" ++ js ".mp4")
            (js "Artist - Title" ++ js ".mp3")]
         ++ [Unlink (js "/tmp/" ++ js "Artist - Title" ++ js ".mp4")]
         ++ Console "Enter song metadata:"
         :: Prompted (10 + 40)
         :: WriteTags (js "Artist - Title" ++ js ".mp3")
              (answer_with demo_answers (processMetadata {| title := js "Artist - Title" |}))
         :: [WarningLine "Failed to write mp3 metadata."]
         ++ Completed :: Probe (js "Artist - Title" ++ js ".mp3") :: report
    /\ report = [UnableToRead].
Proof.
  apply (a_complete_run prettyBytes_guarded prettyBytes_guarded_finite demo_program
           (js "https://youtu.be/dQw4w9WgXcQ") 0 0 {| title := js "Artist - Title" |}
           (Some (js "3")) 3%Q [(1%Q, [x01; x02]); (2%Q, [x03])]
           [(3%Q, 0%Q, js "128"); (10%Q, 100%Q, js "128")] demo_answers 40 true None);
    done.
Defined.

(** X13.  Whatever the title and whatever the prompts return, the record
    that [processMetadata] returns has exactly the fields title, artist,
    album, genre and date, and each holds what its prompt returned: the
    guess made from the title is only the default offered for title and
    artist. *)
Theorem tag_record_holds_the_answers :
  forall ask info,
    let metadata := answer_with ask (processMetadata info) in
    dom metadata = {[ "title"; "artist"; "album"; "genre"; "date" ]}
    /\ metadata !! "title"
       = Some (ask "Title: " {| required := true; default := prop (guessed info) "title" |})
    /\ metadata !! "artist"
       = Some (ask "Artist: " {| required := true; default := prop (guessed info) "artist" |})
    /\ metadata !! "album" = Some (ask "Album: " {| required := true; default := JNull |})
    /\ metadata !! "genre" = Some (ask "Genre: " no_options)
    /\ metadata !! "date" = Some (ask "Year: " no_options).
Proof.
  intros ask info. cbv zeta. unfold processMetadata. cbn [answer_with].
  split.
  - rewrite !dom_insert_L. unfold guessed.
    destruct (exec TITLE_REGEX (title info)); rewrite !dom_insert_L, dom_empty_L; set_solver.
  - assert (Hartist : prop (<["title" := ask "Title: "
                                {| required := true;
                                   default := prop (guessed info) "title" |}]> (guessed info))
                        "artist" = prop (guessed info) "artist").
    { unfold prop. by rewrite lookup_insert_ne. }
    rewrite Hartist.
    repeat split; repeat (rewrite lookup_insert_ne by done); by rewrite lookup_insert_eq.
Qed.
